(** * Code-Architecture-Visualizer: the static dependency graph engine

    A shallow embedding of [analyzers/code_parser.py] and
    [analyzers/dependency_analyzer.py], and the properties of the
    dependency graph they build.

    The dictionary [parsed_files], whose iteration order decides which file
    is registered last, is an association list in insertion order; the
    dictionaries and sets that are looked up by key ([module_mapping],
    [file_to_module], the graph's node and adjacency tables,
    [external_dependencies]) are [gmap]s and [gset]s.
    The analyzer object is long-lived ([app.py] creates one instance and
    calls it on every request), so every method takes the object's state
    and returns the new one. *)

From Stdlib Require Import ZArith Ascii String.
From stdpp Require Import gmap strings list fin_maps fin_sets.

Set Warnings "-register-all,-clear-no-such-hyp".

Open Scope string_scope.
Open Scope list_scope.
Open Scope Z_scope.
Open Scope nat_scope.

(** ** Paths: [pathlib.PurePosixPath.stem], [os.path.join], [os.path.splitext] *)

Module PathLib.

(** The pieces of [s] between the occurrences of [sep], empty ones included
    ([str.split(sep)]); [cur] is the piece being read. *)
Fixpoint split_on (sep : ascii) (cur : string) (s : string) : list string :=
  match s with
  | EmptyString => [cur]
  | String c s' =>
      if Ascii.eqb c sep then cur :: split_on sep EmptyString s'
      else split_on sep (cur +:+ String c EmptyString) s'
  end.

(** [PurePosixPath(p).parts] without the root: empty components and [.]
    components are dropped when the path is parsed. *)
Definition parts (p : string) : list string :=
  filter (λ c, c ≠ "" ∧ c ≠ ".") (split_on "/" "" p).

(** [PurePath.name]: the final component, [''] when there is none. *)
Definition name (p : string) : string := default "" (last (parts p)).

(** [str.rfind('.')], counting positions from [i]. *)
Fixpoint rfind_dot (s : string) (i : nat) : option nat :=
  match s with
  | EmptyString => None
  | String c s' =>
      match rfind_dot s' (S i) with
      | Some j => Some j
      | None => if Ascii.eqb c "." then Some i else None
      end
  end.

(** [PurePath.stem]:
    [i = name.rfind('.'); name[:i] if 0 < i < len(name) - 1 else name]. *)
Definition stem (p : string) : string :=
  let n := name p in
  match rfind_dot n 0 with
  | Some i =>
      if (0 <? i) && (i <? String.length n - 1) then substring 0 i n else n
  | None => n
  end.

(** [os.path.join(a, b)] for a relative [b] (a directory entry). *)
Definition join (a b : string) : string :=
  match last (list_ascii_of_string a) with
  | None => b
  | Some c => if Ascii.eqb c "/" then a +:+ b else a +:+ "/" +:+ b
  end.

(** Is every character of [s] a dot? *)
Fixpoint all_dots (s : string) : bool :=
  match s with
  | EmptyString => true
  | String c s' => Ascii.eqb c "." && all_dots s'
  end.

(** [os.path.splitext(file)[1]] for a file name without separators: the
    part from the last dot on, unless only dots precede that dot. *)
Definition splitext_ext (file : string) : string :=
  match rfind_dot file 0 with
  | Some i =>
      if all_dots (substring 0 i file) then ""
      else substring i (String.length file - i) file
  | None => ""
  end.

(** [str.lower] on the ASCII letters. *)
Definition lower_ascii (c : ascii) : ascii :=
  let n := nat_of_ascii c in
  if (65 <=? n) && (n <=? 90) then ascii_of_nat (n + 32) else c.

Fixpoint lower (s : string) : string :=
  match s with
  | EmptyString => EmptyString
  | String c s' => String (lower_ascii c) (lower s')
  end.

End PathLib.

(** ** Per-file records, as [CodeParser._parse_python_file] builds them *)

(** [{"name": n.name, "lineno": n.lineno, "end_lineno": ...}] *)
Record def_info := DefInfo {
  d_name : string;
  d_lineno : Z;
  d_end_lineno : option Z
}.

(** [{"module": alias.name, "alias": alias.asname, "line": n.lineno}];
    [asname] is [None] when the statement has no [as] clause. *)
Record standard_import := StandardImport {
  si_module : string;
  si_alias : option string;
  si_line : Z
}.

(** [{"module": n.module, "name": alias.name, "alias": alias.asname,
    "line": n.lineno}]; [n.module] is [None] for [from . import x]. *)
Record from_import := FromImport {
  fi_module : option string;
  fi_name : string;
  fi_alias : option string;
  fi_line : Z
}.

Record imports_t := Imports {
  standard_imports : list standard_import;
  from_imports : list from_import
}.

(** The dictionary returned for one file: the successful one or
    [{"parsing_successful": False, "error": ...}]. *)
Inductive parse_data :=
| ParseOk (functions classes : list def_info) (imports : imports_t)
          (source_lines : nat) (source_code : string)
| ParseFail (error : string).

Definition parsing_successful (d : parse_data) : bool :=
  match d with ParseOk _ _ _ _ _ => true | ParseFail _ => false end.

(** What [parse_project] returns first: the results dictionary, or the empty
    dictionary [{}] of its [except] branch. *)
Inductive project_results :=
| Results (parsed_files : list (string * parse_data))
          (unsupported_files : list string)
| EmptyDict.

(** [parsing_results.get('parsed_files', {}).items()] *)
Definition parsed_files_items (r : project_results)
  : list (string * parse_data) :=
  match r with Results pf _ => pf | EmptyDict => [] end.

(** ** [networkx.DiGraph] *)

(** A node's attribute dictionary. [add_node] of the analyzer sets the four
    keys together; a node that [add_edge] creates has none. *)
Record node_attrs := NodeAttrs {
  n_file_path : option string;
  n_functions : option nat;
  n_classes : option nat;
  n_source_lines : option nat
}.

(** An edge's attribute dictionary. The value of [alias] can be Python's
    [None], hence the nested option. *)
Record edge_attrs := EdgeAttrs {
  e_import_type : option string;
  e_line_number : option Z;
  e_imported_name : option string;
  e_alias : option (option string)
}.

Definition no_node_attrs : node_attrs := NodeAttrs None None None None.
Definition no_edge_attrs : edge_attrs := EdgeAttrs None None None None.

(** [dict.update] on one key: the new value, when there is one, replaces the
    old. *)
Definition upd {A} (old new : option A) : option A :=
  match new with Some _ => new | None => old end.

Definition update_node_attrs (old new : node_attrs) : node_attrs :=
  {| n_file_path := upd (n_file_path old) (n_file_path new);
     n_functions := upd (n_functions old) (n_functions new);
     n_classes := upd (n_classes old) (n_classes new);
     n_source_lines := upd (n_source_lines old) (n_source_lines new) |}.

Definition update_edge_attrs (old new : edge_attrs) : edge_attrs :=
  {| e_import_type := upd (e_import_type old) (e_import_type new);
     e_line_number := upd (e_line_number old) (e_line_number new);
     e_imported_name := upd (e_imported_name old) (e_imported_name new);
     e_alias := upd (e_alias old) (e_alias new) |}.

(** A [DiGraph] keeps one attribute dictionary per node and one per ordered
    pair of adjacent nodes: [adj !! (u, v)] is [G._succ[u][v]], which is also
    [G._pred[v][u]]. The library iterates over nodes and edges in the order
    of their insertion; the lists below are in the order of the keys, and
    the properties proved about them are about membership and counts. *)
Record DiGraph := mkDiGraph {
  nodes : gmap string node_attrs;
  adj : gmap (string * string) edge_attrs
}.

Definition empty_DiGraph : DiGraph := mkDiGraph ∅ ∅.

(** [G.add_node(n, **attr)]: a new node gets [attr]; an existing one has its
    dictionary updated. *)
Definition add_node (g : DiGraph) (n : string) (attr : node_attrs) : DiGraph :=
  mkDiGraph
    (<[n := update_node_attrs (default no_node_attrs (nodes g !! n)) attr]>
       (nodes g))
    (adj g).

(** The first half of [add_edge]: an endpoint that is not a node yet is added
    with an empty dictionary. *)
Definition ensure_node (ns : gmap string node_attrs) (n : string)
  : gmap string node_attrs :=
  match ns !! n with Some _ => ns | None => <[n := no_node_attrs]> ns end.

(** [G.add_edge(u, v, **attr)]:
    [datadict = self._adj[u].get(v, {}); datadict.update(attr)]. *)
Definition add_edge (g : DiGraph) (u v : string) (attr : edge_attrs) : DiGraph :=
  mkDiGraph
    (ensure_node (ensure_node (nodes g) u) v)
    (<[(u, v) := update_edge_attrs (default no_edge_attrs (adj g !! (u, v))) attr]>
       (adj g)).

(** [G.nodes()] and [G.edges(data=True)], as lists. *)
Definition node_list (g : DiGraph) : list string := (map_to_list (nodes g)).*1.
Definition edge_list (g : DiGraph) : list (string * string * edge_attrs) :=
  map_to_list (adj g).

Definition number_of_nodes (g : DiGraph) : nat := size (nodes g).
Definition number_of_edges (g : DiGraph) : nat := size (adj g).

(** [G.in_degree(n)] is [len(G._pred[n])], [G.out_degree(n)] is
    [len(G._succ[n])]. *)
Definition in_degree (g : DiGraph) (n : string) : nat :=
  size (filter (λ kv, kv.1.2 = n) (adj g)).
Definition out_degree (g : DiGraph) (n : string) : nat :=
  size (filter (λ kv, kv.1.1 = n) (adj g)).

(** [G.successors(u)] *)
Definition successors (g : DiGraph) (u : string) : list string :=
  (map_to_list (filter (λ kv, kv.1.1 = u) (adj g))).*1.*2.

(** ** Cycle enumeration: [networkx.simple_cycles]

    As the library does, the self-loops are reported first, each as a cycle
    of length one, and the longer elementary circuits are enumerated on the
    graph without them. Each longer circuit is listed once, from its first
    node in the order of [node_list]; the library's order among them is not
    reproduced. *)

(** [([v] for v, Gv in G.adj.items() if v in Gv)] *)
Definition self_loop_cycles (g : DiGraph) : list (list string) :=
  (λ v, [v]) <$> filter (λ v, is_Some (adj g !! (v, v))) (node_list g).

(** The circuits through [s] that extend the path [path] (last node first,
    ending in [cur]) by nodes of [unvisited]. Each step takes a node out of
    [unvisited], so a fuel above the length of [unvisited] is never
    exhausted ([circuits_from_fuel]). *)
Fixpoint circuits_from (fuel : nat) (g : DiGraph) (s : string)
    (unvisited path : list string) (cur : string) : list (list string) :=
  match fuel with
  | 0 => []
  | S fuel' =>
      flat_map
        (λ v,
          if decide (v = s) then
            if decide (cur = s) then [] else [reverse path]
          else if decide (v ∈ unvisited) then
            circuits_from fuel' g s (filter (λ x, x ≠ v) unvisited)
              (v :: path) v
          else [])
        (successors g cur)
  end.

Fixpoint circuits_over (g : DiGraph) (ns : list string) : list (list string) :=
  match ns with
  | [] => []
  | s :: rest =>
      circuits_from (S (length rest)) g s rest [s] s ++ circuits_over g rest
  end.

Definition simple_cycles (g : DiGraph) : list (list string) :=
  self_loop_cycles g ++ circuits_over g (node_list g).

(** ** [DependencyAnalyzer] *)

Record metrics_t := Metrics {
  function_count : nat;
  class_count : nat;
  metric_source_lines : nat
}.

(** A value of [self.module_info]. *)
Record module_info_t := ModuleInfo {
  mi_file_path : string;
  mi_functions : list def_info;
  mi_classes : list def_info;
  mi_imports : imports_t;
  mi_metrics : metrics_t
}.

(** The attributes of the analyzer object. An element of
    [external_dependencies] is a module name or Python's [None]. *)
Record DependencyAnalyzer := mkAnalyzer {
  dependency_graph : DiGraph;
  module_info : gmap string module_info_t;
  external_dependencies : gset (option string);
  circular_dependencies : list (list string);
  orphaned_modules : list string
}.

(** [DependencyAnalyzer.__init__] *)
Definition DependencyAnalyzer_init : DependencyAnalyzer :=
  mkAnalyzer empty_DiGraph ∅ ∅ [] [].

Definition set_graph (self : DependencyAnalyzer) (g : DiGraph) :=
  mkAnalyzer g (module_info self) (external_dependencies self)
    (circular_dependencies self) (orphaned_modules self).

Definition add_external (self : DependencyAnalyzer) (x : option string) :=
  mkAnalyzer (dependency_graph self) (module_info self)
    ({[x]} ∪ external_dependencies self)
    (circular_dependencies self) (orphaned_modules self).

(** The two local dictionaries of [analyze_import_relationships]. *)
Record resolver := mkResolver {
  module_mapping : gmap string string;
  file_to_module : gmap string string
}.

Definition empty_resolver : resolver := mkResolver ∅ ∅.

(** The body of the first loop (lines 32-57): a failed file is skipped; a
    parsed one is entered under its stem in both dictionaries, as a node and
    in [module_info]. *)
Definition register_file (st : resolver * DependencyAnalyzer)
    (item : string * parse_data) : resolver * DependencyAnalyzer :=
  let '(r, self) := st in
  let '(file_path, parse_data) := item in
  match parse_data with
  | ParseFail _ => st
  | ParseOk functions classes imports source_lines _ =>
      let module_name := PathLib.stem file_path in
      (mkResolver (<[module_name := file_path]> (module_mapping r))
                  (<[file_path := module_name]> (file_to_module r)),
       mkAnalyzer
         (add_node (dependency_graph self) module_name
            (NodeAttrs (Some file_path) (Some (length functions))
               (Some (length classes)) (Some source_lines)))
         (<[module_name :=
              ModuleInfo file_path functions classes imports
                (Metrics (length functions) (length classes) source_lines)]>
            (module_info self))
         (external_dependencies self)
         (circular_dependencies self) (orphaned_modules self))
  end.

Definition register_files (st : resolver * DependencyAnalyzer)
    (items : list (string * parse_data)) : resolver * DependencyAnalyzer :=
  foldl register_file st items.

(** The body of the loop over [standard_imports] (lines 68-81); the state is
    the analyzer and [dependency_count]. *)
Definition add_standard_import (r : resolver) (source_module : string)
    (st : DependencyAnalyzer * nat) (import_info : standard_import)
  : DependencyAnalyzer * nat :=
  let '(self, dependency_count) := st in
  let target_module := si_module import_info in
  if decide (is_Some (module_mapping r !! target_module)) then
    (set_graph self
       (add_edge (dependency_graph self) source_module target_module
          (EdgeAttrs (Some "standard") (Some (si_line import_info)) None
             (Some (si_alias import_info)))),
     S dependency_count)
  else (add_external self (Some target_module), dependency_count).

(** The body of the loop over [from_imports] (lines 83-98). A module that is
    [None] is in no dictionary. *)
Definition add_from_import (r : resolver) (source_module : string)
    (st : DependencyAnalyzer * nat) (import_info : from_import)
  : DependencyAnalyzer * nat :=
  let '(self, dependency_count) := st in
  let source_module_name := fi_module import_info in
  let imported_name := fi_name import_info in
  match source_module_name with
  | Some target =>
      if decide (is_Some (module_mapping r !! target)) then
        (set_graph self
           (add_edge (dependency_graph self) source_module target
              (EdgeAttrs (Some "from_import") (Some (fi_line import_info))
                 (Some imported_name) (Some (fi_alias import_info)))),
         S dependency_count)
      else (add_external self source_module_name, dependency_count)
  | None => (add_external self None, dependency_count)
  end.

(** The second loop (lines 61-98). [file_to_module[file_path]] raises
    [KeyError] on a missing key: the result is then [inl] of the key. *)
Fixpoint link_files (r : resolver) (items : list (string * parse_data))
    (st : DependencyAnalyzer * nat) : DependencyAnalyzer * (string + nat) :=
  match items with
  | [] => (st.1, inr st.2)
  | (file_path, parse_data) :: rest =>
      match parse_data with
      | ParseFail _ => link_files r rest st
      | ParseOk _ _ imports _ _ =>
          match file_to_module r !! file_path with
          | None => (st.1, inl file_path)
          | Some source_module =>
              let st1 :=
                foldl (add_standard_import r source_module) st
                  (standard_imports imports) in
              let st2 :=
                foldl (add_from_import r source_module) st1
                  (from_imports imports) in
              link_files r rest st2
          end
      end
  end.

(** [_detect_circular_dependencies] *)
Definition detect_circular_dependencies (self : DependencyAnalyzer) :=
  mkAnalyzer (dependency_graph self) (module_info self)
    (external_dependencies self)
    (simple_cycles (dependency_graph self)) (orphaned_modules self).

(** [_identify_orphaned_modules] *)
Definition identify_orphaned_modules (self : DependencyAnalyzer) :=
  mkAnalyzer (dependency_graph self) (module_info self)
    (external_dependencies self) (circular_dependencies self)
    (filter
       (λ node, in_degree (dependency_graph self) node = 0
                ∧ out_degree (dependency_graph self) node = 0)
       (node_list (dependency_graph self))).

Record summary_t := Summary {
  total_modules : nat;
  total_dependencies : nat;
  external_count : nat;
  circular_count : nat;
  orphaned_count : nat
}.

(** The dictionary returned on success; [analysis_time], a wall-clock
    duration, is left out. *)
Record analysis_result := AnalysisResult {
  r_graph : DiGraph;
  r_module_info : gmap string module_info_t;
  r_external_dependencies : list (option string);
  r_circular_dependencies : list (list string);
  r_orphaned_modules : list string;
  r_summary : summary_t
}.

(** [analyze_import_relationships]: the new state of the analyzer and the
    returned pair, [None] with the error message from the [except] branch. *)
Definition analyze_import_relationships (self : DependencyAnalyzer)
    (parsing_results : project_results)
  : DependencyAnalyzer * (option analysis_result * string) :=
  let items := parsed_files_items parsing_results in
  let '(r, self1) := register_files (empty_resolver, self) items in
  match link_files r items (self1, 0) with
  | (self2, inl key) =>
      (self2, (None, "❌ Dependency analysis failed: '" +:+ key +:+ "'"))
  | (self2, inr dependency_count) =>
      let self3 := detect_circular_dependencies self2 in
      let self4 := identify_orphaned_modules self3 in
      (self4,
       (Some
          (AnalysisResult
             (dependency_graph self4) (module_info self4)
             (elements (external_dependencies self4))
             (circular_dependencies self4) (orphaned_modules self4)
             (Summary
                (number_of_nodes (dependency_graph self4))
                dependency_count
                (size (external_dependencies self4))
                (length (circular_dependencies self4))
                (length (orphaned_modules self4)))),
        "✅ Dependency graph analysis completed"))
  end.

(** ** [export_to_formats]: the value serialised to
    [dependencies_<session>.json] *)

Record json_node := JsonNode {
  jn_id : string;
  jn_file_path : string;
  jn_functions : nat;
  jn_classes : nat;
  jn_source_lines : nat
}.

Record json_edge := JsonEdge {
  je_source : string;
  je_target : string;
  je_import_type : string;
  je_line_number : Z;
  je_imported_name : string;
  je_alias : option string
}.

Record json_data := JsonData {
  j_nodes : list json_node;
  j_edges : list json_edge;
  j_external_dependencies : list (option string);
  j_circular_dependencies : list (list string);
  j_orphaned_modules : list string
}.

Definition export_node (nd : string * node_attrs) : json_node :=
  JsonNode nd.1
    (default "" (n_file_path nd.2)) (default 0 (n_functions nd.2))
    (default 0 (n_classes nd.2)) (default 0 (n_source_lines nd.2)).

Definition export_edge (e : string * string * edge_attrs) : json_edge :=
  JsonEdge e.1.1 e.1.2
    (default "unknown" (e_import_type e.2)) (default 0%Z (e_line_number e.2))
    (default "" (e_imported_name e.2)) (default (Some "") (e_alias e.2)).

(** [json_data] of [export_to_formats] (lines 170-195). *)
Definition export_json_data (self : DependencyAnalyzer) : json_data :=
  JsonData
    (export_node <$> map_to_list (nodes (dependency_graph self)))
    (export_edge <$> edge_list (dependency_graph self))
    (elements (external_dependencies self))
    (circular_dependencies self)
    (orphaned_modules self).

(** ** [CodeParser]: the syntax trees of [ast] and the file system *)

(** [ast.alias]: one name of an import statement. *)
Record alias := Alias {
  alias_name : string;
  alias_asname : option string
}.

(** The nodes of a tree returned by [ast.parse], by the classes
    [_parse_python_file] tells apart; [OtherNode] is a node of any other
    class ([Module], [If], [Try], an expression, ...) with its child nodes. *)
Inductive ast_node :=
| FunctionDef (name : string) (lineno : Z) (end_lineno : option Z)
              (children : list ast_node)
| AsyncFunctionDef (name : string) (lineno : Z) (end_lineno : option Z)
                   (children : list ast_node)
| ClassDef (name : string) (lineno : Z) (end_lineno : option Z)
           (children : list ast_node)
| Import (names : list alias) (lineno : Z)
| ImportFrom (module : option string) (names : list alias) (level : nat)
             (lineno : Z)
| AliasNode (a : alias)
| OtherNode (children : list ast_node).

(** [ast.iter_child_nodes] *)
Definition iter_child_nodes (n : ast_node) : list ast_node :=
  match n with
  | FunctionDef _ _ _ c | AsyncFunctionDef _ _ _ c | ClassDef _ _ _ c
  | OtherNode c => c
  | Import names _ | ImportFrom _ names _ _ => AliasNode <$> names
  | AliasNode _ => []
  end.

(** The number of nodes of a tree. *)
Fixpoint node_size (n : ast_node) : nat :=
  let fix sizes (l : list ast_node) : nat :=
    match l with [] => 0 | x :: l' => node_size x + sizes l' end in
  match n with
  | FunctionDef _ _ _ c | AsyncFunctionDef _ _ _ c | ClassDef _ _ _ c
  | OtherNode c => S (sizes c)
  | Import names _ | ImportFrom _ names _ _ => S (length names)
  | AliasNode _ => 1
  end.

(** The loop of [ast.walk]:
    [node = todo.popleft(); todo.extend(iter_child_nodes(node)); yield node],
    for at most [fuel] nodes. *)
Fixpoint walk_queue (fuel : nat) (todo : list ast_node) : list ast_node :=
  match fuel, todo with
  | S fuel', node :: rest =>
      node :: walk_queue fuel' (rest ++ iter_child_nodes node)
  | _, _ => []
  end.

(** [ast.walk(node)]: one step per node of the tree. *)
Definition walk (node : ast_node) : list ast_node :=
  walk_queue (node_size node) [node].

(** The four lists that the loop of [_parse_python_file] appends to. *)
Record extracted := Extracted {
  x_functions : list def_info;
  x_classes : list def_info;
  x_standard_imports : list standard_import;
  x_from_imports : list from_import
}.

(** The body of [for n in ast.walk(node)] (lines 38-49). *)
Definition visit (acc : extracted) (n : ast_node) : extracted :=
  match n with
  | FunctionDef name lineno end_lineno _ =>
      Extracted (x_functions acc ++ [DefInfo name lineno end_lineno])
        (x_classes acc) (x_standard_imports acc) (x_from_imports acc)
  | ClassDef name lineno end_lineno _ =>
      Extracted (x_functions acc)
        (x_classes acc ++ [DefInfo name lineno end_lineno])
        (x_standard_imports acc) (x_from_imports acc)
  | Import names lineno =>
      Extracted (x_functions acc) (x_classes acc)
        (x_standard_imports acc ++
           ((λ a, StandardImport (alias_name a) (alias_asname a) lineno)
              <$> names))
        (x_from_imports acc)
  | ImportFrom module names _ lineno =>
      Extracted (x_functions acc) (x_classes acc) (x_standard_imports acc)
        (x_from_imports acc ++
           ((λ a, FromImport module (alias_name a) (alias_asname a) lineno)
              <$> names))
  | AsyncFunctionDef _ _ _ _ | AliasNode _ | OtherNode _ => acc
  end.

(** The line boundaries of [str.splitlines] among the characters below 256. *)
Definition is_linebreak (c : ascii) : bool :=
  let n := nat_of_ascii c in
  (n =? 10) || (n =? 11) || (n =? 12) || (n =? 13)
  || (n =? 28) || (n =? 29) || (n =? 30) || (n =? 133).

(** [str.splitlines]: a carriage return followed by a line feed is one
    boundary, and no empty line follows the last boundary. [cur] is the line
    being read. *)
Fixpoint splitlines_from (cur : string) (s : string) : list string :=
  match s with
  | EmptyString => if decide (cur = "") then [] else [cur]
  | String c s' =>
      if is_linebreak c then
        cur ::
          match s' with
          | String c' s'' =>
              if (nat_of_ascii c =? 13) && (nat_of_ascii c' =? 10)
              then splitlines_from "" s'' else splitlines_from "" s'
          | EmptyString => splitlines_from "" s'
          end
      else splitlines_from (cur +:+ String c EmptyString) s'
  end.

Definition splitlines (s : string) : list string := splitlines_from "" s.

(** What opening, reading and parsing a file gives: [Unreadable] when
    [open] or [read] raises; otherwise the decoded text (one [ascii] per
    character, for texts of characters below 256) with what [ast.parse]
    does on it, [inl] for the exception it raises. *)
Inductive file_content :=
| Unreadable (error : string)
| Source (code : string) (tree : string + ast_node).

(** [_parse_python_file], on the content found at [fpath]. *)
Definition parse_python_file (content : file_content) : parse_data :=
  match content with
  | Unreadable e => ParseFail e
  | Source code (inl e) => ParseFail e
  | Source code (inr node) =>
      let acc := foldl visit (Extracted [] [] [] []) (walk node) in
      ParseOk (x_functions acc) (x_classes acc)
        (Imports (x_standard_imports acc) (x_from_imports acc))
        (length (splitlines code)) code
  end.

(** A directory tree of files and directories (no symbolic links), each
    directory with its entries in the order [scandir] lists them. A
    directory that cannot be listed has [listable = false]. *)
Inductive fs_node :=
| File (content : file_content)
| Dir (listable : bool) (entries : list (string * fs_node)).

Definition is_dir (n : fs_node) : bool :=
  match n with Dir _ _ => true | File _ => false end.

(** The file names of a listing, with the contents they name. *)
Definition nondirs (entries : list (string * fs_node))
  : list (string * file_content) :=
  omap (λ e, match e.2 with File c => Some (e.1, c) | Dir _ _ => None end)
    entries.

Definition dirs (entries : list (string * fs_node)) : list string :=
  (filter (λ e, is_dir e.2 = true) entries).*1.

(** [os.walk(top)], top-down, with its default [onerror=None]: when
    [scandir(top)] raises [OSError] (not a directory, permission denied),
    the generator returns without yielding anything. *)
Fixpoint os_walk (top : string) (n : fs_node)
  : list (string * list string * list (string * file_content)) :=
  match n with
  | File _ => []
  | Dir false _ => []
  | Dir true entries =>
      let fix walk_dirs (es : list (string * fs_node))
        : list (string * list string * list (string * file_content)) :=
        match es with
        | [] => []
        | (name, child) :: es' =>
            (if is_dir child then os_walk (PathLib.join top name) child
             else [])
            ++ walk_dirs es'
        end in
      (top, dirs entries, nondirs entries) :: walk_dirs entries
  end.

(** [os.walk(root_dir)], where [at_root] is what the path [root_dir] names,
    [None] when nothing is there ([scandir] raises [FileNotFoundError]). *)
Definition os_walk_root (root_dir : string) (at_root : option fs_node) :=
  match at_root with
  | None => []
  | Some n => os_walk root_dir n
  end.

(** [d[k] = v] on a dictionary kept in insertion order. *)
Fixpoint dict_set {V} (k : string) (v : V) (d : list (string * V))
  : list (string * V) :=
  match d with
  | [] => [(k, v)]
  | (k', v') :: d' =>
      if decide (k' = k) then (k, v) :: d' else (k', v') :: dict_set k v d'
  end.

(** [CodeParser.supported_ext] *)
Definition supported_ext : list string := [".py"].

(** The body of [for file in files] (lines 17-23); the state is
    [results["parsed_files"]] and [results["unsupported_files"]]. *)
Definition parse_entry (dirpath : string)
    (results : list (string * parse_data) * list string)
    (entry : string * file_content)
  : list (string * parse_data) * list string :=
  let '(file, content) := entry in
  let ext := PathLib.lower (PathLib.splitext_ext file) in
  let fpath := PathLib.join dirpath file in
  if decide (ext ∈ supported_ext) then
    (dict_set fpath (parse_python_file content) results.1, results.2)
  else (results.1, results.2 ++ [fpath]).

(** [parse_project]. Nothing in the [try] block raises: [os.walk] swallows
    the errors of [scandir] and [_parse_python_file] catches its own, so the
    [except] branch, which would return [EmptyDict] with the message
    "Parse error", is never taken. *)
Definition parse_project (root_dir : string) (at_root : option fs_node)
  : project_results * string :=
  let results :=
    foldl (λ results step, foldl (parse_entry step.1.1) results step.2)
      ([], []) (os_walk_root root_dir at_root) in
  (Results results.1 results.2, "✅ All supported files parsed").

(** ** The imports of a run, in the order the second loop processes them

    These definitions read the input the way the specification speaks of it,
    as a sequence of import statements that each resolve to a module or do
    not; [link_files_events] below relates them to the loops of the code. *)

Inductive import_event :=
| Resolved (source target : string) (attr : edge_attrs)
| External (target : option string).

Definition standard_event (r : resolver) (source_module : string)
    (i : standard_import) : import_event :=
  if decide (is_Some (module_mapping r !! si_module i)) then
    Resolved source_module (si_module i)
      (EdgeAttrs (Some "standard") (Some (si_line i)) None (Some (si_alias i)))
  else External (Some (si_module i)).

Definition from_event (r : resolver) (source_module : string)
    (i : from_import) : import_event :=
  match fi_module i with
  | Some target =>
      if decide (is_Some (module_mapping r !! target)) then
        Resolved source_module target
          (EdgeAttrs (Some "from_import") (Some (fi_line i))
             (Some (fi_name i)) (Some (fi_alias i)))
      else External (Some target)
  | None => External None
  end.

(** The imports of one file: the plain ones, then the from-imports. *)
Definition file_events (r : resolver) (item : string * parse_data)
  : list import_event :=
  match item.2 with
  | ParseFail _ => []
  | ParseOk _ _ imports _ _ =>
      (standard_event r (PathLib.stem item.1) <$> standard_imports imports)
      ++ (from_event r (PathLib.stem item.1) <$> from_imports imports)
  end.

Definition import_events (r : resolver) (items : list (string * parse_data))
  : list import_event :=
  items ≫= file_events r.

(** What one import does to the analyzer and to [dependency_count]. *)
Definition apply_event (st : DependencyAnalyzer * nat) (e : import_event)
  : DependencyAnalyzer * nat :=
  match e with
  | Resolved u v a =>
      (set_graph st.1 (add_edge (dependency_graph st.1) u v a), S st.2)
  | External x => (add_external st.1 x, st.2)
  end.

(** The resolver that the first loop builds from the files of a run. *)
Definition resolver_of (items : list (string * parse_data)) : resolver :=
  (register_files (empty_resolver, DependencyAnalyzer_init) items).1.

(** The imports of a whole run. *)
Definition run_events (parsing_results : project_results) : list import_event :=
  let items := parsed_files_items parsing_results in
  import_events (resolver_of items) items.

(** The attributes of an import that connects [u] to [v]. *)
Definition event_attr (u v : string) (e : import_event) : option edge_attrs :=
  match e with
  | Resolved u' v' a => if decide (u' = u ∧ v' = v) then Some a else None
  | External _ => None
  end.

(** The imports from [u] to [v] among [evs], by their attributes. *)
Definition pair_attrs (u v : string) (evs : list import_event)
  : list edge_attrs :=
  omap (event_attr u v) evs.

Definition is_resolved (e : import_event) : bool :=
  match e with Resolved _ _ _ => true | External _ => false end.

(** The number of imports that resolve to a module. *)
Definition resolved_count (evs : list import_event) : nat :=
  length (filter (λ e, is_resolved e = true) evs).

(** The attribute dictionary of an edge after the dictionaries [l] were
    merged into it one after the other, [o] being the edge before. *)
Definition merge_attrs (o : option edge_attrs) (l : list edge_attrs)
  : option edge_attrs :=
  foldl (λ o a, Some (update_edge_attrs (default no_edge_attrs o) a)) o l.

(** The states an analyzer object goes through: a new one, and the one a
    run leaves behind. *)
Inductive reachable : DependencyAnalyzer → Prop :=
| reachable_init : reachable DependencyAnalyzer_init
| reachable_run self parsing_results :
    reachable self →
    reachable (analyze_import_relationships self parsing_results).1.

(** Every edge of the graph joins two nodes. *)
Definition graph_closed (g : DiGraph) : Prop :=
  ∀ u v d, adj g !! (u, v) = Some d →
    is_Some (nodes g !! u) ∧ is_Some (nodes g !! v).

(** [n] occurs in the tree rooted at [root]. *)
Inductive in_tree (n : ast_node) : ast_node → Prop :=
| in_tree_root : in_tree n n
| in_tree_child c root :
    c ∈ iter_child_nodes root → in_tree n c → in_tree n root.

(** The whole size of a queue of [ast.walk]. *)
Definition queue_size (todo : list ast_node) : nat :=
  sum_list_with node_size todo.

(** [path], last node first, is a walk of the graph. *)
Inductive rev_walk (g : DiGraph) : list string → Prop :=
| rev_walk_one x : rev_walk g [x]
| rev_walk_step y x l :
    is_Some (adj g !! (x, y)) → rev_walk g (x :: l) → rev_walk g (y :: x :: l).

(** [c] is a closed walk: a walk whose last node has an edge to its first. *)
Definition closed_walk (g : DiGraph) (c : list string) : Prop :=
  rev_walk g (reverse c)
  ∧ ∃ first final, head c = Some first ∧ last c = Some final
                   ∧ is_Some (adj g !! (final, first)).

(** The module identifiers of a run: the stems of the parsed files. *)
Definition module_ids (items : list (string * parse_data)) : list string :=
  omap (λ it, if parsing_successful it.2 then Some (PathLib.stem it.1) else None)
    items.

(** The import targets of a run that resolve to no module. *)
Definition external_targets (evs : list import_event) : list (option string) :=
  omap (λ e, match e with External x => Some x | Resolved _ _ _ => None end)
    evs.

(** The analyzer and [dependency_count] once both loops of a run are done,
    in terms of the imports of the run. *)
Definition linked (self : DependencyAnalyzer) (parsing_results : project_results)
  : DependencyAnalyzer * nat :=
  let items := parsed_files_items parsing_results in
  foldl apply_event ((register_files (empty_resolver, self) items).2, 0)
    (run_events parsing_results).

(** ** Sample projects *)

Definition parsed (imports : imports_t) : parse_data :=
  ParseOk [] [] imports 1 "".

(** [A] imports [B], [B] imports [C] and [os], [C] imports from [A] and
    from its own package, [D] imports itself, [E] imports nothing. *)
Definition sample_cycle : project_results :=
  Results
    [("p/A.py", parsed (Imports [StandardImport "B" None 1] []));
     ("p/B.py",
      parsed (Imports [StandardImport "C" None 1; StandardImport "os" None 2] []));
     ("p/C.py",
      parsed (Imports [] [FromImport (Some "A") "f" None 3;
                          FromImport None "g" None 4]));
     ("p/D.py", parsed (Imports [StandardImport "D" None 1] []));
     ("p/E.py", parsed (Imports [] []))]
    [].

(** [A] imports [B] twice: [import B] on line 1 and [from B import f as g]
    on line 2. *)
Definition sample_parallel : project_results :=
  Results
    [("p/A.py",
      parsed (Imports [StandardImport "B" None 1]
                      [FromImport (Some "B") "f" (Some "g") 2]));
     ("p/B.py", parsed (Imports [] []))]
    [].

(** Two runs of one analyzer: a project with a module [a], then a project
    whose module [b] imports a module [a] that it does not contain. *)
Definition sample_first_run : project_results :=
  Results [("p/a.py", parsed (Imports [] []))] [].

Definition sample_second_run : project_results :=
  Results [("q/b.py", parsed (Imports [StandardImport "a" None 1] []))] [].

(** Two files with the stem [utils]: the first has [from x import y] on
    line 1, the second [import x] on line 5. *)
Definition sample_stale : project_results :=
  Results
    [("a/utils.py", parsed (Imports [] [FromImport (Some "x") "y" None 1]));
     ("b/utils.py", parsed (Imports [StandardImport "x" None 5] []));
     ("x.py", parsed (Imports [] []))]
    [].

(** Two parsed files with the stem [utils]; the first defines a function. *)
Definition sample_collision : project_results :=
  Results
    [("a/utils.py", ParseOk [DefInfo "f" 1 (Some 2%Z)] [] (Imports [] []) 2 "");
     ("b/utils.py", parsed (Imports [] []))]
    [].

(** The second file of [sample_collision] alone. *)
Definition sample_collision_second : project_results :=
  Results [("b/utils.py", parsed (Imports [] []))] [].

(** A package directory with one module, whose text is
    [from . import helper]. *)
Definition sample_relative : fs_node :=
  Dir true
    [("mod.py",
      File (Source "from . import helper"
              (inr (OtherNode [ImportFrom None [Alias "helper" None] 1 1]))))].

(** The tree of a module that defines a coroutine function [fetch] with a
    nested function [inner], and a function [plain]. *)
Definition sample_async : ast_node :=
  OtherNode
    [AsyncFunctionDef "fetch" 1 (Some 3%Z)
       [FunctionDef "inner" 2 (Some 3%Z) [OtherNode []]];
     FunctionDef "plain" 4 (Some 5%Z) [OtherNode []]].

(** What [visit] records for a node, as a property of the four lists. *)
Definition recorded (n : ast_node) (acc : extracted) : Prop :=
  match n with
  | FunctionDef name lineno end_lineno _ =>
      DefInfo name lineno end_lineno ∈ x_functions acc
  | ClassDef name lineno end_lineno _ =>
      DefInfo name lineno end_lineno ∈ x_classes acc
  | Import names lineno =>
      ∀ a, a ∈ names →
        StandardImport (alias_name a) (alias_asname a) lineno
          ∈ x_standard_imports acc
  | ImportFrom module names _ lineno =>
      ∀ a, a ∈ names →
        FromImport module (alias_name a) (alias_asname a) lineno
          ∈ x_from_imports acc
  | AsyncFunctionDef _ _ _ _ | AliasNode _ | OtherNode _ => True
  end.

(** ** The input of a run, read as import statements *)

(** A parsed file of module [u] among [items] has an import, plain or from,
    of the module name [v]. *)
Definition imports_name (items : list (string * parse_data)) (u v : string)
  : Prop :=
  ∃ fp fs cs imports n code,
    (fp, ParseOk fs cs imports n code) ∈ items ∧ PathLib.stem fp = u
    ∧ ((∃ i, i ∈ standard_imports imports ∧ si_module i = v)
       ∨ (∃ i, i ∈ from_imports imports ∧ fi_module i = Some v)).

(** A parsed file among [items] has a from-import whose module is [None]. *)
Definition has_relative_import (items : list (string * parse_data)) : Prop :=
  ∃ fp fs cs imports n code i,
    (fp, ParseOk fs cs imports n code) ∈ items
    ∧ i ∈ from_imports imports ∧ fi_module i = None.

(** The number of import records of the parsed files. *)
Definition import_count (items : list (string * parse_data)) : nat :=
  sum_list_with
    (λ it, match it.2 with
           | ParseOk _ _ imports _ _ =>
               length (standard_imports imports) + length (from_imports imports)
           | ParseFail _ => 0
           end)
    items.

(** The node attributes that the first loop writes for a parsed file. *)
Definition node_update (item : string * parse_data)
  : option (string * node_attrs) :=
  match item.2 with
  | ParseOk fs cs _ n _ =>
      Some (PathLib.stem item.1,
            NodeAttrs (Some item.1) (Some (length fs)) (Some (length cs))
              (Some n))
  | ParseFail _ => None
  end.

(** The entry of [module_info] that the first loop writes for a parsed
    file. *)
Definition info_update (item : string * parse_data)
  : option (string * module_info_t) :=
  match item.2 with
  | ParseOk fs cs imports n _ =>
      Some (PathLib.stem item.1,
            ModuleInfo item.1 fs cs imports
              (Metrics (length fs) (length cs) n))
  | ParseFail _ => None
  end.

(** A node dictionary with the four keys that [add_node] is given. *)
Definition node_complete (a : node_attrs) : Prop :=
  is_Some (n_file_path a) ∧ is_Some (n_functions a)
  ∧ is_Some (n_classes a) ∧ is_Some (n_source_lines a).

(** An edge dictionary as the two calls of [add_edge] leave it: a kind, a
    line and an alias entry, and a name when the kind is [from_import]. *)
Definition edge_complete (d : edge_attrs) : Prop :=
  (e_import_type d = Some "standard"
   ∨ (e_import_type d = Some "from_import" ∧ is_Some (e_imported_name d)))
  ∧ is_Some (e_line_number d) ∧ is_Some (e_alias d).

Definition attrs_complete (g : DiGraph) : Prop :=
  (∀ m a, nodes g !! m = Some a → node_complete a)
  ∧ (∀ u v d, adj g !! (u, v) = Some d → edge_complete d).

(** [l], first node first, is a walk of the graph. *)
Inductive fwalk (g : DiGraph) : list string → Prop :=
| fwalk_nil : fwalk g []
| fwalk_one x : fwalk g [x]
| fwalk_cons x y l :
    is_Some (adj g !! (x, y)) → fwalk g (y :: l) → fwalk g (x :: y :: l).

(** ** Syntax trees, node by node *)

(** The nodes of a tree: the root, then the nodes of its children. *)
Fixpoint tree_nodes (n : ast_node) : list ast_node :=
  let fix forest (l : list ast_node) : list ast_node :=
    match l with [] => [] | x :: l' => tree_nodes x ++ forest l' end in
  n ::
    match n with
    | FunctionDef _ _ _ c | AsyncFunctionDef _ _ _ c | ClassDef _ _ _ c
    | OtherNode c => forest c
    | Import names _ | ImportFrom _ names _ _ => AliasNode <$> names
    | AliasNode _ => []
    end.

Definition is_FunctionDef (n : ast_node) : bool :=
  match n with FunctionDef _ _ _ _ => true | _ => false end.

Definition is_ClassDef (n : ast_node) : bool :=
  match n with ClassDef _ _ _ _ => true | _ => false end.

(** The number of names of a plain import statement, of a from-import
    statement. *)
Definition import_names (n : ast_node) : nat :=
  match n with Import names _ => length names | _ => 0 end.

Definition from_import_names (n : ast_node) : nat :=
  match n with ImportFrom _ names _ _ => length names | _ => 0 end.

(** ** Files of a directory tree *)

(** The file [file], with content [c], is listed in the directory that
    [os.walk] reaches under the path [dirpath], going from the directory
    [n] at [top] through directories that can be listed. *)
Inductive file_at : string → fs_node → string → string → file_content → Prop :=
| file_here top entries file c :
    (file, File c) ∈ entries →
    file_at top (Dir true entries) top file c
| file_below top entries name child dirpath file c :
    (name, child) ∈ entries → is_dir child = true →
    file_at (PathLib.join top name) child dirpath file c →
    file_at top (Dir true entries) dirpath file c.

(** The file name has a supported extension. *)
Definition supported (file : string) : Prop :=
  PathLib.lower (PathLib.splitext_ext file) ∈ supported_ext.

(** The files that [parse_project] meets, in order, each with the path of
    its directory. *)
Definition walked_files (root_dir : string) (at_root : option fs_node)
  : list (string * (string * file_content)) :=
  os_walk_root root_dir at_root ≫= λ step, (λ e, (step.1.1, e)) <$> step.2.

(** Does the character occur in the string? *)
Fixpoint has_char (c : ascii) (s : string) : bool :=
  match s with
  | EmptyString => false
  | String c' s' => Ascii.eqb c' c || has_char c s'
  end.

(** [p] is the path of a file among [L] whose name satisfies [Q]. *)
Definition path_met (Q : string → Prop)
    (L : list (string * (string * file_content))) (p : string) : Prop :=
  ∃ d f c, (d, (f, c)) ∈ L ∧ Q f ∧ p = PathLib.join d f.

(** [x] is the record of a supported file among [L] whose path is [p]. *)
Definition record_met (L : list (string * (string * file_content)))
    (p : string) (x : parse_data) : Prop :=
  ∃ d f c, (d, (f, c)) ∈ L ∧ supported f ∧ p = PathLib.join d f
           ∧ x = parse_python_file c.

(** * Properties *)

(** The graph operations are used through their lemmas. *)
Arguments add_node : simpl never.
Arguments add_edge : simpl never.

(** ** The model on small inputs *)

Example stem_of_nested_path : PathLib.stem "src/pkg/utils.py" = "utils".
Proof. reflexivity. Qed.

Example stem_keeps_inner_suffix : PathLib.stem "dist/pkg.tar.gz" = "pkg.tar".
Proof. reflexivity. Qed.

Example stem_of_hidden_file : PathLib.stem "home/.bashrc" = ".bashrc".
Proof. reflexivity. Qed.

Example ext_is_lowered : PathLib.lower (PathLib.splitext_ext "Setup.PY") = ".py".
Proof. reflexivity. Qed.

Example splitlines_drops_last_break :
  splitlines ("a" +:+ String (ascii_of_nat 10) "b" +:+ String (ascii_of_nat 10) "")
    = ["a"; "b"].
Proof. reflexivity. Qed.

(** The project [sample_cycle]: four imports resolve, [os] and the [None] of
    the relative import are external, the cycles are the self-loop of [D] and
    the one through [A], [B] and [C], and [E] is orphaned. *)
Example sample_cycle_analysis :
  let run := analyze_import_relationships DependencyAnalyzer_init sample_cycle in
  (r_summary <$> run.2.1) = Some (Summary 5 4 2 2 1)
  ∧ circular_dependencies run.1 = [["D"]; ["C"; "A"; "B"]]
  ∧ orphaned_modules run.1 = ["E"]
  ∧ elements (external_dependencies run.1) = [Some "os"; None].
Proof. vm_compute. done. Qed.

(** ** Graph operations *)

Section graph.
Implicit Types (g : DiGraph) (u v n m : string).

Lemma ensure_node_lookup (ns : gmap string node_attrs) n m :
  is_Some (ensure_node ns n !! m) ↔ m = n ∨ is_Some (ns !! m).
Proof.
  unfold ensure_node. destruct (ns !! n) as [a|] eqn:E.
  - split; [by right|]. intros [->|?]; [by exists a|done].
  - rewrite lookup_insert. case_decide; subst.
    + split; [by left|]. by eexists.
    + split; [by right|]. by intros [?|?].
Qed.

Lemma add_node_lookup g n a m :
  is_Some (nodes (add_node g n a) !! m) ↔ m = n ∨ is_Some (nodes g !! m).
Proof.
  unfold add_node; simpl. rewrite lookup_insert. case_decide; subst.
  - split; [by left|]. by eexists.
  - split; [by right|]. by intros [?|?].
Qed.

Lemma add_node_adj g n a : adj (add_node g n a) = adj g.
Proof. done. Qed.

Lemma add_edge_nodes g u v a m :
  is_Some (nodes (add_edge g u v a) !! m)
  ↔ m = u ∨ m = v ∨ is_Some (nodes g !! m).
Proof.
  unfold add_edge; simpl. rewrite !ensure_node_lookup. tauto.
Qed.

Lemma add_edge_adj g u v a u' v' :
  adj (add_edge g u v a) !! (u', v') =
    if decide (u = u' ∧ v = v') then
      Some (update_edge_attrs (default no_edge_attrs (adj g !! (u, v))) a)
    else adj g !! (u', v').
Proof.
  unfold add_edge; simpl. rewrite lookup_insert.
  destruct (decide ((u, v) = (u', v'))) as [E|E],
    (decide (u = u' ∧ v = v')) as [E'|E']; try done.
  - destruct E'. by inversion E.
  - destruct E' as [-> ->]. by destruct E.
Qed.

Lemma add_node_closed g n a : graph_closed g → graph_closed (add_node g n a).
Proof.
  intros Hg u v d H. rewrite add_node_adj in H.
  destruct (Hg _ _ _ H). rewrite !add_node_lookup. tauto.
Qed.

Lemma add_edge_closed g u v a : graph_closed g → graph_closed (add_edge g u v a).
Proof.
  intros Hg u' v' d H. rewrite add_edge_adj in H. rewrite !add_edge_nodes.
  case_decide as Hd.
  - destruct Hd as [-> ->]. tauto.
  - destruct (Hg _ _ _ H). tauto.
Qed.

Lemma empty_closed : graph_closed empty_DiGraph.
Proof. intros u v d H. simpl in H. by rewrite lookup_empty in H. Qed.

Lemma elem_of_node_list g n : n ∈ node_list g ↔ is_Some (nodes g !! n).
Proof.
  unfold node_list. rewrite list_elem_of_fmap. split.
  - intros [[k a] [-> H]]. apply elem_of_map_to_list in H. by exists a.
  - intros [a H]. exists (n, a). split; [done|]. by apply elem_of_map_to_list.
Qed.

Lemma in_degree_zero g n : in_degree g n = 0 ↔ ∀ u, adj g !! (u, n) = None.
Proof.
  unfold in_degree. rewrite map_size_empty_iff, map_empty_filter.
  unfold map_Forall. split.
  - intros H u. destruct (adj g !! (u, n)) as [d|] eqn:E; [|done].
    by destruct (H _ _ E).
  - intros H [u v] d E ?; simpl in *; subst. by rewrite H in E.
Qed.

Lemma out_degree_zero g n : out_degree g n = 0 ↔ ∀ v, adj g !! (n, v) = None.
Proof.
  unfold out_degree. rewrite map_size_empty_iff, map_empty_filter.
  unfold map_Forall. split.
  - intros H v. destruct (adj g !! (n, v)) as [d|] eqn:E; [|done].
    by destruct (H _ _ E).
  - intros H [u v] d E ?; simpl in *; subst. by rewrite H in E.
Qed.

End graph.

(** ** Cycle enumeration *)

Section cycles.
Implicit Types (g : DiGraph) (s v cur : string) (path : list string).

Lemma elem_of_successors g cur v :
  v ∈ successors g cur ↔ is_Some (adj g !! (cur, v)).
Proof.
  unfold successors. rewrite list_elem_of_fmap. split.
  - intros [[u v'] [-> H]]. apply list_elem_of_fmap in H as [[[u' v''] d] [[= -> ->] H]].
    apply elem_of_map_to_list, map_lookup_filter_Some in H as [H E].
    simpl in E. subst. by exists d.
  - intros [d H]. exists (cur, v). split; [done|].
    apply list_elem_of_fmap. exists (cur, v, d). split; [done|].
    apply elem_of_map_to_list, map_lookup_filter_Some. by split.
Qed.

Lemma elem_of_flat_map {A B} (f : A → list B) (l : list A) (y : B) :
  y ∈ flat_map f l ↔ ∃ x, x ∈ l ∧ y ∈ f x.
Proof.
  rewrite list_elem_of_In, in_flat_map. setoid_rewrite list_elem_of_In.
  done.
Qed.

(** The fuel of [circuits_from] is never exhausted: any two fuels above the
    number of unvisited nodes give the same circuits. *)
Lemma circuits_from_fuel fuel fuel' g s unvisited path cur :
  length unvisited < fuel → length unvisited < fuel' →
  circuits_from fuel g s unvisited path cur
    = circuits_from fuel' g s unvisited path cur.
Proof.
  revert fuel' unvisited path cur.
  induction fuel as [|fuel IH]; intros fuel' unvisited path cur H H'; [lia|].
  destruct fuel' as [|fuel']; [lia|]. simpl.
  apply flat_map_ext. intros v. case_decide; [done|].
  case_decide as Hv; [|done].
  assert (length (filter (λ x, x ≠ v) unvisited) < length unvisited) as Hlt.
  { apply (length_filter_lt _ _ v); [done|]. by intros Hne. }
  apply IH; lia.
Qed.

(** Every circuit that [circuits_from] lists closes a walk of the graph
    that starts at [s]. *)
Lemma circuits_from_sound fuel g s unvisited path cur c :
  c ∈ circuits_from fuel g s unvisited path cur →
  rev_walk g path → head path = Some cur → last path = Some s →
  closed_walk g c.
Proof.
  revert unvisited path cur.
  induction fuel as [|fuel IH]; intros unvisited path cur Hc Hw Hh Hl.
  - by apply elem_of_nil in Hc.
  - simpl in Hc. apply elem_of_flat_map in Hc as (v & Hv & Hc).
    apply elem_of_successors in Hv. case_decide as Hs.
    + subst v. case_decide; [by apply elem_of_nil in Hc|].
      apply list_elem_of_singleton in Hc as ->.
      split; [by rewrite reverse_involutive|].
      exists s, cur. rewrite head_reverse, last_reverse. done.
    + case_decide; [|by apply elem_of_nil in Hc].
      apply (IH (filter (λ x, x ≠ v) unvisited) (v :: path) v); [done| |done|].
      * destruct path as [|x l]; [done|]. simpl in Hh. inversion Hh; subst.
        by apply rev_walk_step.
      * destruct path; [done|]. by rewrite last_cons, Hl.
Qed.

Lemma circuits_over_sound g ns c :
  c ∈ circuits_over g ns → closed_walk g c.
Proof.
  induction ns as [|s rest IH]; intros Hc.
  - by apply elem_of_nil in Hc.
  - cbn [circuits_over] in Hc. apply elem_of_app in Hc as [Hc|Hc]; [|by apply IH].
    apply (circuits_from_sound _ _ _ _ _ _ _ Hc); [apply rev_walk_one|done..].
Qed.

(** Every cycle that [simple_cycles] reports is a closed walk of the
    graph. *)
Lemma simple_cycles_sound g c : c ∈ simple_cycles g → closed_walk g c.
Proof.
  unfold simple_cycles. intros [Hc|Hc]%elem_of_app.
  - unfold self_loop_cycles in Hc.
    apply list_elem_of_fmap in Hc as (v & -> & Hv).
    apply list_elem_of_filter in Hv as [Hv _].
    split; [apply rev_walk_one|]. by exists v, v.
  - by eapply circuits_over_sound.
Qed.

End cycles.

(** ** The first loop: modules, nodes and the resolver *)

Section register.
Implicit Types (items : list (string * parse_data)) (r : resolver)
  (self : DependencyAnalyzer) (m fp : string).

Lemma register_files_cons r self fp d items :
  register_files (r, self) ((fp, d) :: items) =
    register_files (register_file (r, self) (fp, d)) items.
Proof. done. Qed.

(** The resolver does not depend on the analyzer's state. *)
Lemma register_files_resolver items r self self' :
  (register_files (r, self) items).1 = (register_files (r, self') items).1.
Proof.
  revert r self self'. induction items as [|[fp d] items IH]; intros; [done|].
  rewrite !register_files_cons. destruct d; simpl; apply IH.
Qed.

Lemma register_files_f2m_keep items r self fp :
  file_to_module r !! fp = Some (PathLib.stem fp) →
  file_to_module (register_files (r, self) items).1 !! fp
    = Some (PathLib.stem fp).
Proof.
  revert r self. induction items as [|[fp' d] items IH]; intros r self H; [done|].
  rewrite register_files_cons. destruct d; simpl; apply IH; simpl; [|done].
  rewrite lookup_insert. by case_decide; subst.
Qed.

(** After the first loop every parsed file is a key of [file_to_module]. *)
Lemma register_files_f2m items r self fp d :
  (fp, d) ∈ items → parsing_successful d = true →
  file_to_module (register_files (r, self) items).1 !! fp
    = Some (PathLib.stem fp).
Proof.
  revert r self. induction items as [|[fp' d'] items IH]; intros r self Hin Hd.
  - by apply elem_of_nil in Hin.
  - rewrite register_files_cons. apply elem_of_cons in Hin as [[= <- <-]|Hin].
    + destruct d; [|done]. simpl. apply register_files_f2m_keep. simpl.
      by rewrite lookup_insert_eq.
    + destruct d'; simpl; by apply IH.
Qed.

Lemma elem_of_module_ids items m :
  m ∈ module_ids items
  ↔ ∃ fp d, (fp, d) ∈ items ∧ parsing_successful d = true
            ∧ PathLib.stem fp = m.
Proof.
  unfold module_ids. rewrite list_elem_of_omap. split.
  - intros [[fp d] [Hin H]]. simpl in H. exists fp, d.
    destruct (parsing_successful d); naive_solver.
  - intros (fp & d & Hin & Hd & <-). exists (fp, d). simpl. by rewrite Hd.
Qed.

Lemma module_ids_cons fp d items m :
  m ∈ module_ids ((fp, d) :: items)
  ↔ (parsing_successful d = true ∧ m = PathLib.stem fp) ∨ m ∈ module_ids items.
Proof.
  unfold module_ids. simpl. destruct (parsing_successful d); simpl.
  - rewrite elem_of_cons. naive_solver.
  - naive_solver.
Qed.

(** The keys of [module_mapping] are the module identifiers. *)
Lemma register_files_mapping items r self m :
  is_Some (module_mapping (register_files (r, self) items).1 !! m)
  ↔ is_Some (module_mapping r !! m) ∨ m ∈ module_ids items.
Proof.
  revert r self. induction items as [|[fp d] items IH]; intros r self.
  - unfold module_ids; simpl. rewrite elem_of_nil. tauto.
  - rewrite register_files_cons, module_ids_cons. destruct d; simpl.
    + rewrite IH. simpl. rewrite lookup_insert. case_decide; subst.
      * split; [intros _; right; by left|intros _; left; by eexists].
      * naive_solver.
    + rewrite IH. naive_solver.
Qed.

(** So are the nodes that the loop adds. *)
Lemma register_files_nodes items r self m :
  is_Some (nodes (dependency_graph (register_files (r, self) items).2) !! m)
  ↔ is_Some (nodes (dependency_graph self) !! m) ∨ m ∈ module_ids items.
Proof.
  revert r self. induction items as [|[fp d] items IH]; intros r self.
  - unfold module_ids; simpl. rewrite elem_of_nil. tauto.
  - rewrite register_files_cons, module_ids_cons. destruct d; simpl.
    + rewrite IH. cbn [snd dependency_graph]. rewrite add_node_lookup.
      naive_solver.
    + rewrite IH. naive_solver.
Qed.

Lemma register_files_adj items r self :
  adj (dependency_graph (register_files (r, self) items).2)
    = adj (dependency_graph self).
Proof.
  revert r self. induction items as [|[fp d] items IH]; intros r self; [done|].
  rewrite register_files_cons. destruct d; simpl; by rewrite IH.
Qed.

Lemma register_files_external items r self :
  external_dependencies (register_files (r, self) items).2
    = external_dependencies self.
Proof.
  revert r self. induction items as [|[fp d] items IH]; intros r self; [done|].
  rewrite register_files_cons. destruct d; simpl; by rewrite IH.
Qed.

Lemma register_files_closed items r self :
  graph_closed (dependency_graph self) →
  graph_closed (dependency_graph (register_files (r, self) items).2).
Proof.
  revert r self. induction items as [|[fp d] items IH]; intros r self H; [done|].
  rewrite register_files_cons. destruct d; simpl; apply IH; simpl; [|done].
  by apply add_node_closed.
Qed.

End register.

(** ** The second loop, import by import *)

Section events.
Implicit Types (items : list (string * parse_data)) (r : resolver)
  (st : DependencyAnalyzer * nat) (evs : list import_event)
  (u v m : string).

Lemma add_standard_import_event r u st i :
  add_standard_import r u st i = apply_event st (standard_event r u i).
Proof.
  destruct st as [self c]. unfold add_standard_import, standard_event.
  by case_decide.
Qed.

Lemma add_from_import_event r u st i :
  add_from_import r u st i = apply_event st (from_event r u i).
Proof.
  destruct st as [self c]. unfold add_from_import, from_event.
  destruct (fi_module i); [|done]. by case_decide.
Qed.

Lemma foldl_standard_imports r u l st :
  foldl (add_standard_import r u) st l
    = foldl apply_event st (standard_event r u <$> l).
Proof.
  revert st. induction l as [|i l IH]; intros st; [done|]. simpl.
  by rewrite IH, add_standard_import_event.
Qed.

Lemma foldl_from_imports r u l st :
  foldl (add_from_import r u) st l
    = foldl apply_event st (from_event r u <$> l).
Proof.
  revert st. induction l as [|i l IH]; intros st; [done|]. simpl.
  by rewrite IH, add_from_import_event.
Qed.

(** The second loop never raises once the first has run over the same
    files, and it is the fold of [apply_event] over the imports. *)
Lemma link_files_events r items st :
  (∀ fp d, (fp, d) ∈ items → parsing_successful d = true →
     file_to_module r !! fp = Some (PathLib.stem fp)) →
  link_files r items st =
    ((foldl apply_event st (import_events r items)).1,
     inr (foldl apply_event st (import_events r items)).2).
Proof.
  revert st. induction items as [|[fp d] items IH]; intros st H; [done|].
  unfold import_events. rewrite bind_cons, foldl_app. simpl.
  destruct d as [fs cs imports n code|e].
  - rewrite (H fp (ParseOk fs cs imports n code)); [|left|done].
    unfold file_events; simpl. rewrite foldl_app.
    rewrite foldl_standard_imports, foldl_from_imports.
    apply IH. intros fp' d' Hin. apply H. by right.
  - apply IH. intros fp' d' Hin. apply H. by right.
Qed.

Lemma events_adj evs st u v :
  adj (dependency_graph (foldl apply_event st evs).1) !! (u, v)
    = merge_attrs (adj (dependency_graph st.1) !! (u, v)) (pair_attrs u v evs).
Proof.
  revert st. induction evs as [|e evs IH]; intros st; [done|].
  cbn. rewrite IH. destruct e as [u' v' a|x]; cbn; [|done].
  rewrite add_edge_adj. unfold pair_attrs; cbn.
  case_decide as Hd; [|done]. by destruct Hd as [-> ->].
Qed.

Lemma events_nodes evs st m :
  is_Some (nodes (dependency_graph (foldl apply_event st evs).1) !! m)
  ↔ is_Some (nodes (dependency_graph st.1) !! m)
    ∨ ∃ u v a, Resolved u v a ∈ evs ∧ (m = u ∨ m = v).
Proof.
  revert st. induction evs as [|e evs IH]; intros st.
  - simpl. split; [by left|]. intros [?|(?&?&?&H&_)]; [done|].
    by apply elem_of_nil in H.
  - cbn. rewrite IH. setoid_rewrite elem_of_cons.
    destruct e as [u' v' a|x]; cbn.
    + rewrite add_edge_nodes. naive_solver.
    + naive_solver.
Qed.

Lemma events_external evs st x :
  x ∈ external_dependencies (foldl apply_event st evs).1
  ↔ x ∈ external_dependencies st.1 ∨ External x ∈ evs.
Proof.
  revert st. induction evs as [|e evs IH]; intros st.
  - simpl. rewrite elem_of_nil. tauto.
  - simpl. rewrite IH, elem_of_cons.
    destruct e as [u' v' a|y]; simpl; [naive_solver|].
    rewrite elem_of_union, elem_of_singleton. naive_solver.
Qed.

Lemma events_count evs st :
  (foldl apply_event st evs).2 = st.2 + resolved_count evs.
Proof.
  revert st. induction evs as [|e evs IH]; intros st.
  - unfold resolved_count. simpl. lia.
  - cbn [foldl]. rewrite IH. unfold resolved_count. rewrite filter_cons.
    destruct e; simpl; lia.
Qed.

Lemma events_closed evs st :
  graph_closed (dependency_graph st.1) →
  graph_closed (dependency_graph (foldl apply_event st evs).1).
Proof.
  revert st. induction evs as [|e evs IH]; intros st H; [done|].
  simpl. apply IH. destruct e; simpl; [|done]. by apply add_edge_closed.
Qed.

Lemma elem_of_import_events r items e :
  e ∈ import_events r items
  ↔ ∃ fp d, (fp, d) ∈ items ∧ e ∈ file_events r (fp, d).
Proof.
  unfold import_events. rewrite list_elem_of_bind. split.
  - intros [[fp d] [? ?]]. eauto.
  - intros (fp & d & ? & ?). by exists (fp, d).
Qed.

(** A resolved import leaves a module of the run for a key of the
    resolver. *)
Lemma resolved_event_ends r items u v a :
  Resolved u v a ∈ import_events r items →
  u ∈ module_ids items ∧ is_Some (module_mapping r !! v).
Proof.
  rewrite elem_of_import_events. intros (fp & d & Hin & He).
  unfold file_events in He. simpl in He.
  destruct d as [fs cs imports n code|err]; [|by apply elem_of_nil in He].
  assert (PathLib.stem fp ∈ module_ids items) as Hm.
  { apply elem_of_module_ids. by exists fp, (ParseOk fs cs imports n code). }
  apply elem_of_app in He as [He|He]; apply list_elem_of_fmap in He as [i [He _]].
  - unfold standard_event in He. case_decide; [|done]. by inversion He; subst.
  - unfold from_event in He. destruct (fi_module i); [|done].
    case_decide; [|done]. by inversion He; subst.
Qed.

(** An external target that is a name is no key of the resolver. *)
Lemma external_event_unresolved r items x :
  External (Some x) ∈ import_events r items → module_mapping r !! x = None.
Proof.
  rewrite elem_of_import_events. intros (fp & d & Hin & He).
  unfold file_events in He. simpl in He.
  destruct d as [fs cs imports n code|err]; [|by apply elem_of_nil in He].
  apply elem_of_app in He as [He|He]; apply list_elem_of_fmap in He as [i [He _]].
  - unfold standard_event in He. case_decide as Hd; [done|].
    inversion He; subst. by apply eq_None_not_Some.
  - unfold from_event in He. destruct (fi_module i); [|done].
    case_decide as Hd; [done|]. inversion He; subst. by apply eq_None_not_Some.
Qed.

End events.

(** ** A whole run *)

Section run.
Implicit Types (self : DependencyAnalyzer) (pr : project_results).

Lemma resolver_of_mapping pr m :
  is_Some (module_mapping (resolver_of (parsed_files_items pr)) !! m)
  ↔ m ∈ module_ids (parsed_files_items pr).
Proof.
  unfold resolver_of. rewrite register_files_mapping. simpl.
  rewrite lookup_empty. split; [intros [[? ?]|?]; done|by right].
Qed.

(** [analyze_import_relationships] always takes its successful branch. *)
Lemma analyze_unfold self pr :
  analyze_import_relationships self pr =
    let self4 :=
      identify_orphaned_modules
        (detect_circular_dependencies (linked self pr).1) in
    (self4,
     (Some
        (AnalysisResult
           (dependency_graph self4) (module_info self4)
           (elements (external_dependencies self4))
           (circular_dependencies self4) (orphaned_modules self4)
           (Summary
              (number_of_nodes (dependency_graph self4))
              (linked self pr).2
              (size (external_dependencies self4))
              (length (circular_dependencies self4))
              (length (orphaned_modules self4)))),
      "✅ Dependency graph analysis completed")).
Proof.
  unfold analyze_import_relationships, linked, run_events.
  set (items := parsed_files_items pr).
  pose proof (register_files_resolver items empty_resolver self
                DependencyAnalyzer_init) as Hr.
  fold (resolver_of items) in Hr.
  destruct (register_files (empty_resolver, self) items) as [r self1] eqn:E.
  simpl in Hr. subst r. rewrite link_files_events; [done|].
  intros fp d Hin Hd. unfold resolver_of. by eapply register_files_f2m.
Qed.

Lemma analyze_graph self pr :
  dependency_graph (analyze_import_relationships self pr).1
    = dependency_graph (linked self pr).1.
Proof. by rewrite analyze_unfold. Qed.

Lemma analyze_external self pr :
  external_dependencies (analyze_import_relationships self pr).1
    = external_dependencies (linked self pr).1.
Proof. by rewrite analyze_unfold. Qed.

Lemma analyze_closed self pr :
  graph_closed (dependency_graph self) →
  graph_closed (dependency_graph (analyze_import_relationships self pr).1).
Proof.
  intros H. rewrite analyze_graph. unfold linked.
  by apply events_closed, register_files_closed.
Qed.

Lemma reachable_closed self :
  reachable self → graph_closed (dependency_graph self).
Proof.
  induction 1 as [|self pr _ IH]; [apply empty_closed|by apply analyze_closed].
Qed.

(** The adjacency table after a run: the imports between two modules are
    merged, in order, into the edge that was there. *)
Lemma analyze_adj self pr u v :
  adj (dependency_graph (analyze_import_relationships self pr).1) !! (u, v)
    = merge_attrs (adj (dependency_graph self) !! (u, v))
        (pair_attrs u v (run_events pr)).
Proof.
  rewrite analyze_graph. unfold linked. rewrite events_adj. simpl.
  by rewrite register_files_adj.
Qed.

(** The nodes after a run: the ones before and the modules of the run. *)
Lemma analyze_nodes self pr m :
  is_Some (nodes (dependency_graph (analyze_import_relationships self pr).1) !! m)
  ↔ is_Some (nodes (dependency_graph self) !! m)
    ∨ m ∈ module_ids (parsed_files_items pr).
Proof.
  rewrite analyze_graph. unfold linked. rewrite events_nodes. simpl.
  rewrite register_files_nodes. split; [|tauto].
  intros [?|(u & v & a & He & Hm)]; [done|]. right.
  apply resolved_event_ends in He as [Hu Hv].
  apply resolver_of_mapping in Hv. by destruct Hm as [->| ->].
Qed.

End run.

(** ** The exported graph *)

Section export.
Implicit Types (self : DependencyAnalyzer) (u v : string).

Lemma elem_of_exported_edges self e :
  e ∈ j_edges (export_json_data self)
  ↔ ∃ u v d, adj (dependency_graph self) !! (u, v) = Some d
             ∧ e = export_edge (u, v, d).
Proof.
  unfold export_json_data, edge_list; simpl. rewrite list_elem_of_fmap. split.
  - intros [[[u v] d] [-> H]]. apply elem_of_map_to_list in H. by exists u, v, d.
  - intros (u & v & d & H & ->). exists (u, v, d). split; [done|].
    by apply elem_of_map_to_list.
Qed.

Lemma elem_of_exported_ids self n :
  n ∈ jn_id <$> j_nodes (export_json_data self)
  ↔ is_Some (nodes (dependency_graph self) !! n).
Proof.
  unfold export_json_data; simpl. rewrite <- list_fmap_compose.
  rewrite <- elem_of_node_list. unfold node_list.
  by rewrite !list_elem_of_fmap.
Qed.

Lemma filter_key_absent {K A} `{EqDecision K} (l : list (K * A)) k :
  k ∉ l.*1 → filter (λ kv, kv.1 = k) l = [].
Proof.
  induction l as [|[k' x'] l IH]; intros Hk; [done|].
  rewrite fmap_cons, not_elem_of_cons in Hk. destruct Hk as [Hne Hk].
  rewrite filter_cons, decide_False; [by apply IH|]. simpl in *.
  intros ->. by apply Hne.
Qed.

(** In a list without repeated keys, one entry has a given key. *)
Lemma filter_key_NoDup {K A} `{EqDecision K} (l : list (K * A)) k x :
  NoDup l.*1 → (k, x) ∈ l → filter (λ kv, kv.1 = k) l = [(k, x)].
Proof.
  induction l as [|[k' x'] l IH]; intros Hnd Hin.
  - by apply elem_of_nil in Hin.
  - rewrite fmap_cons in Hnd. apply NoDup_cons in Hnd as [Hk' Hnd].
    rewrite filter_cons. simpl in *.
    apply elem_of_cons in Hin as [[= <- <-]|Hin].
    + rewrite decide_True by done. f_equal. by apply filter_key_absent.
    + rewrite decide_False; [by apply IH|].
      intros ->. apply Hk', list_elem_of_fmap. by exists (k, x).
Qed.

(** The export holds exactly one edge for a pair of adjacent nodes. *)
Lemma exported_edge_unique self u v d :
  adj (dependency_graph self) !! (u, v) = Some d →
  filter (λ e, je_source e = u ∧ je_target e = v)
    (j_edges (export_json_data self)) = [export_edge (u, v, d)].
Proof.
  intros H. unfold export_json_data, edge_list; simpl.
  assert (∀ l : list (string * string * edge_attrs),
    filter (λ e, je_source e = u ∧ je_target e = v) (export_edge <$> l)
      = export_edge <$> filter (λ kv, kv.1 = (u, v)) l) as ->.
  { induction l as [|[[u' v'] d'] l IH]; [done|].
    rewrite fmap_cons, !filter_cons, IH. simpl.
    destruct (decide (u' = u ∧ v' = v)) as [[-> ->]|Hn].
    - by rewrite decide_True.
    - rewrite decide_False; [done|]. intros [= -> ->]. by apply Hn. }
  rewrite (filter_key_NoDup _ (u, v) d); [done| |].
  - apply NoDup_fst_map_to_list.
  - by apply elem_of_map_to_list.
Qed.

End export.

(** ** C4: edges join nodes *)

(** C4. In every state that an analyzer reaches, by any number of runs, each
    edge of the graph joins two nodes of the graph, and for each edge of the
    export both [source] and [target] are in the node table and among the
    [id]s of the exported nodes. *)
Theorem C4_no_dangling_edges (self : DependencyAnalyzer) (e : json_edge) :
  reachable self →
  e ∈ j_edges (export_json_data self) →
  graph_closed (dependency_graph self)
  ∧ is_Some (nodes (dependency_graph self) !! je_source e)
  ∧ is_Some (nodes (dependency_graph self) !! je_target e)
  ∧ je_source e ∈ jn_id <$> j_nodes (export_json_data self)
  ∧ je_target e ∈ jn_id <$> j_nodes (export_json_data self).
Proof.
  intros Hr He. pose proof (reachable_closed _ Hr) as Hc.
  apply elem_of_exported_edges in He as (u & v & d & H & ->).
  destruct (Hc _ _ _ H) as [Hu Hv]. rewrite !elem_of_exported_ids.
  exact (conj Hc (conj Hu (conj Hv (conj Hu Hv)))).
Qed.

Lemma C4_no_dangling_edges_witness :
  "A" ∈ jn_id <$> j_nodes (export_json_data
          (analyze_import_relationships DependencyAnalyzer_init sample_cycle).1)
  ∧ "B" ∈ jn_id <$> j_nodes (export_json_data
          (analyze_import_relationships DependencyAnalyzer_init sample_cycle).1).
Proof.
  assert (reachable
            (analyze_import_relationships DependencyAnalyzer_init sample_cycle).1)
    as Hr by apply reachable_run, reachable_init.
  assert (JsonEdge "A" "B" "standard" 1 "" None
            ∈ j_edges (export_json_data
                (analyze_import_relationships DependencyAnalyzer_init
                   sample_cycle).1))
    as He by (vm_compute; repeat constructor).
  destruct (C4_no_dangling_edges _ _ Hr He) as (_ & _ & _ & Hs & Ht).
  exact (conj Hs Ht).
Defined.

(** ** Merged attribute dictionaries *)

Section merge.
Implicit Types (o : option edge_attrs) (l : list edge_attrs) (a : edge_attrs).

Lemma merge_attrs_snoc o l a :
  merge_attrs o (l ++ [a])
    = Some (update_edge_attrs (default no_edge_attrs (merge_attrs o l)) a).
Proof. unfold merge_attrs. by rewrite foldl_snoc. Qed.

Lemma merge_attrs_is_Some o l a : a ∈ l → is_Some (merge_attrs o l).
Proof.
  intros Hin. destruct l as [|b l _] using rev_ind.
  - by apply elem_of_nil in Hin.
  - rewrite merge_attrs_snoc. by eexists.
Qed.

Lemma elem_of_pair_attrs u v a evs :
  Resolved u v a ∈ evs → a ∈ pair_attrs u v evs.
Proof.
  intros H. apply list_elem_of_omap. exists (Resolved u v a).
  split; [done|]. simpl. by rewrite decide_True.
Qed.

Lemma pair_attrs_elem_of u v a evs :
  a ∈ pair_attrs u v evs → Resolved u v a ∈ evs.
Proof.
  intros [e [Hin He]]%list_elem_of_omap. destruct e as [u' v' b|x]; [|done].
  simpl in He. case_decide as Hd; [|done]. destruct Hd as [-> ->].
  by inversion He; subst.
Qed.

(** The name kept in a merged dictionary is the last one that was given. *)
Lemma merge_attrs_imported_name o l :
  e_imported_name (default no_edge_attrs (merge_attrs o l))
    = match last (omap e_imported_name l) with
      | Some n => Some n
      | None => e_imported_name (default no_edge_attrs o)
      end.
Proof.
  induction l as [|a l IH] using rev_ind; [done|].
  rewrite merge_attrs_snoc, omap_app. simpl. rewrite IH.
  destruct (e_imported_name a) as [n|]; simpl.
  - by rewrite last_snoc.
  - by rewrite app_nil_r.
Qed.

End merge.

(** ** C5: orphaned modules *)

(** C5. After every run, a module is in the list of orphaned modules that
    the run returns, and that the analyzer keeps, exactly when it is a node
    of the graph with no incoming and no outgoing edge. *)
Theorem C5_orphan_correctness (self : DependencyAnalyzer)
    (pr : project_results) :
  ∃ res,
    (analyze_import_relationships self pr).2.1 = Some res
    ∧ r_graph res = dependency_graph (analyze_import_relationships self pr).1
    ∧ r_orphaned_modules res
        = orphaned_modules (analyze_import_relationships self pr).1
    ∧ ∀ N, N ∈ r_orphaned_modules res ↔
        N ∈ node_list (r_graph res)
        ∧ (∀ u, adj (r_graph res) !! (u, N) = None)
        ∧ (∀ v, adj (r_graph res) !! (N, v) = None).
Proof.
  rewrite analyze_unfold. cbn zeta. eexists. split; [done|].
  split; [done|]. split; [done|]. intros N.
  cbn [r_orphaned_modules r_graph identify_orphaned_modules orphaned_modules
       dependency_graph detect_circular_dependencies].
  rewrite list_elem_of_filter, in_degree_zero, out_degree_zero. tauto.
Qed.

(** ** C7: a module that imports itself *)

Lemma self_import_event (pr : project_results) fp fs cs imports n code :
  (fp, ParseOk fs cs imports n code) ∈ parsed_files_items pr →
  (∃ i, i ∈ standard_imports imports ∧ si_module i = PathLib.stem fp)
  ∨ (∃ i, i ∈ from_imports imports ∧ fi_module i = Some (PathLib.stem fp)) →
  ∃ a, Resolved (PathLib.stem fp) (PathLib.stem fp) a ∈ run_events pr.
Proof.
  intros Hin Himp. unfold run_events.
  set (items := parsed_files_items pr) in *.
  assert (is_Some (module_mapping (resolver_of items) !! PathLib.stem fp)) as Hm.
  { apply resolver_of_mapping, elem_of_module_ids. by eexists _, _. }
  destruct Himp as [(i & Hi & E)|(i & Hi & E)].
  - eexists. apply elem_of_import_events. eexists _, _. split; [exact Hin|].
    unfold file_events; simpl. apply elem_of_app. left.
    apply list_elem_of_fmap. exists i. split; [|done].
    unfold standard_event. rewrite E, decide_True by done. done.
  - eexists. apply elem_of_import_events. eexists _, _. split; [exact Hin|].
    unfold file_events; simpl. apply elem_of_app. right.
    apply list_elem_of_fmap. exists i. split; [|done].
    unfold from_event. rewrite E, decide_True by done. done.
Qed.

(** C7. When a parsed file of module [A] has an import, plain or from, whose
    module is [A], then after the run the graph has the edge from [A] to
    [A], the export has it, and the cycle [[A]] of length one is in the list
    of circular dependencies. *)
Theorem C7_self_import (self : DependencyAnalyzer) (pr : project_results)
    (fp : string) (fs cs : list def_info) (imports : imports_t) (n : nat)
    (code A : string) :
  (fp, ParseOk fs cs imports n code) ∈ parsed_files_items pr →
  PathLib.stem fp = A →
  (∃ i, i ∈ standard_imports imports ∧ si_module i = A)
  ∨ (∃ i, i ∈ from_imports imports ∧ fi_module i = Some A) →
  is_Some (adj (dependency_graph (analyze_import_relationships self pr).1)
             !! (A, A))
  ∧ (∃ e, e ∈ j_edges (export_json_data (analyze_import_relationships self pr).1)
          ∧ je_source e = A ∧ je_target e = A)
  ∧ [A] ∈ circular_dependencies (analyze_import_relationships self pr).1
  ∧ ∃ res, (analyze_import_relationships self pr).2.1 = Some res
           ∧ [A] ∈ r_circular_dependencies res.
Proof.
  intros Hin <- Himp.
  destruct (self_import_event pr _ _ _ _ _ _ Hin Himp) as [a Ha].
  assert (is_Some (adj (dependency_graph (analyze_import_relationships self pr).1)
                     !! (PathLib.stem fp, PathLib.stem fp))) as Hadj.
  { rewrite analyze_adj. eapply merge_attrs_is_Some, elem_of_pair_attrs, Ha. }
  assert ([PathLib.stem fp]
            ∈ simple_cycles
                (dependency_graph (analyze_import_relationships self pr).1))
    as Hcyc.
  { unfold simple_cycles, self_loop_cycles. apply elem_of_app. left.
    apply list_elem_of_fmap. exists (PathLib.stem fp). split; [done|].
    apply list_elem_of_filter. split; [done|].
    apply elem_of_node_list, analyze_nodes. right.
    apply elem_of_module_ids. by eexists _, _. }
  split; [done|]. split.
  - destruct Hadj as [d Hd]. exists (export_edge (PathLib.stem fp, PathLib.stem fp, d)).
    split; [|done]. apply elem_of_exported_edges. by eexists _, _, _.
  - revert Hcyc. rewrite analyze_unfold. cbn zeta. intros Hcyc.
    split; [exact Hcyc|]. eexists. split; [done|]. exact Hcyc.
Qed.

Lemma C7_self_import_witness :
  ["D"] ∈ circular_dependencies
            (analyze_import_relationships DependencyAnalyzer_init sample_cycle).1.
Proof.
  refine (proj1 (proj2 (proj2
    (C7_self_import DependencyAnalyzer_init sample_cycle "p/D.py" [] []
       (Imports [StandardImport "D" None 1] []) 1 "" "D" _ _ _)))).
  - vm_compute. repeat constructor.
  - reflexivity.
  - left. exists (StandardImport "D" None 1). split; [|reflexivity].
    repeat constructor.
Defined.

(** ** C6: external dependencies and nodes *)

(** C6, as stated, fails on an analyzer that is used twice: the node [a] of
    the first run stays in the graph, and the second run, whose project has
    no module [a], records [a] as external. *)
Lemma C6_counterexample :
  Some "a" ∈ external_dependencies
      (analyze_import_relationships
         (analyze_import_relationships DependencyAnalyzer_init
            sample_first_run).1 sample_second_run).1
  ∧ is_Some (nodes (dependency_graph
      (analyze_import_relationships
         (analyze_import_relationships DependencyAnalyzer_init
            sample_first_run).1 sample_second_run).1) !! "a")
  ∧ j_external_dependencies (export_json_data
      (analyze_import_relationships
         (analyze_import_relationships DependencyAnalyzer_init
            sample_first_run).1 sample_second_run).1) = [Some "a"]
  ∧ jn_id <$> j_nodes (export_json_data
      (analyze_import_relationships
         (analyze_import_relationships DependencyAnalyzer_init
            sample_first_run).1 sample_second_run).1) = ["a"; "b"].
Proof.
  split; [|split; [|split]].
  - apply (bool_decide_unpack _). vm_compute. exact I.
  - apply (bool_decide_unpack _). vm_compute. exact I.
  - vm_compute. reflexivity.
  - vm_compute. reflexivity.
Qed.

(** C6, amended. On a new analyzer, after the run no external dependency is
    the name of a node of the graph, and the list of external dependencies
    that the run returns has no repetition and holds exactly the elements of
    the analyzer's set. *)
Theorem C6_external_disjoint_from_init (pr : project_results) :
  (∀ m, m ∈ node_list (dependency_graph
                (analyze_import_relationships DependencyAnalyzer_init pr).1) →
        Some m ∉ external_dependencies
                   (analyze_import_relationships DependencyAnalyzer_init pr).1)
  ∧ ∃ res,
      (analyze_import_relationships DependencyAnalyzer_init pr).2.1 = Some res
      ∧ NoDup (r_external_dependencies res)
      ∧ (∀ x, x ∈ r_external_dependencies res ↔
              x ∈ external_dependencies
                    (analyze_import_relationships DependencyAnalyzer_init pr).1)
      ∧ ∀ m, m ∈ node_list (r_graph res) →
             Some m ∉ r_external_dependencies res.
Proof.
  assert (∀ m, m ∈ node_list (dependency_graph
                (analyze_import_relationships DependencyAnalyzer_init pr).1) →
        Some m ∉ external_dependencies
                   (analyze_import_relationships DependencyAnalyzer_init pr).1)
    as Hdisj.
  { intros m Hm Hx. apply elem_of_node_list, analyze_nodes in Hm.
    destruct Hm as [[? Hm]|Hm]; [simpl in Hm; by rewrite lookup_empty in Hm|].
    rewrite analyze_external in Hx. unfold linked in Hx.
    apply events_external in Hx. simpl in Hx.
    rewrite register_files_external in Hx.
    destruct Hx as [Hx|Hx]; [by apply not_elem_of_empty in Hx|].
    apply external_event_unresolved in Hx.
    apply resolver_of_mapping in Hm. rewrite Hx in Hm. by destruct Hm. }
  split; [exact Hdisj|]. revert Hdisj. rewrite analyze_unfold. cbn zeta.
  intros Hdisj. eexists. split; [done|].
  cbn [r_external_dependencies r_graph].
  split; [apply NoDup_elements|]. split; [intros x; apply elem_of_elements|].
  intros m Hm. rewrite elem_of_elements. by apply Hdisj.
Qed.

Lemma C6_external_disjoint_from_init_witness :
  Some "A" ∉ external_dependencies
               (analyze_import_relationships DependencyAnalyzer_init
                  sample_cycle).1.
Proof.
  apply (proj1 (C6_external_disjoint_from_init sample_cycle) "A").
  vm_compute. repeat constructor.
Defined.

(** ** C1 and C10: several imports between the same two modules *)

Section parallel.
Implicit Types (evs : list import_event) (st : DependencyAnalyzer * nat).

(** The attributes of a resolved import have a kind, a line and an alias
    entry. *)
Lemma resolved_event_attrs r items u v a :
  Resolved u v a ∈ import_events r items →
  is_Some (e_import_type a) ∧ is_Some (e_line_number a)
  ∧ is_Some (e_alias a).
Proof.
  rewrite elem_of_import_events. intros (fp & d & Hin & He).
  unfold file_events in He. simpl in He.
  destruct d as [fs cs imports n code|err]; [|by apply elem_of_nil in He].
  apply elem_of_app in He as [He|He]; apply list_elem_of_fmap in He as [i [He _]].
  - unfold standard_event in He. case_decide; [|done].
    inversion He; subst; simpl. by repeat split.
  - unfold from_event in He. destruct (fi_module i); [|done].
    case_decide; [|done]. inversion He; subst; simpl. by repeat split.
Qed.

(** An import adds at most one edge. *)
Lemma events_edges_bound evs st :
  size (adj (dependency_graph (foldl apply_event st evs).1))
  ≤ size (adj (dependency_graph st.1)) + resolved_count evs.
Proof.
  revert st. induction evs as [|e evs IH]; intros st.
  - simpl. lia.
  - cbn [foldl]. etrans; [apply IH|]. unfold resolved_count.
    rewrite filter_cons. destruct e as [u v a|x]; simpl; [|lia].
    unfold add_edge; simpl. rewrite map_size_insert.
    destruct (adj (dependency_graph st.1) !! (u, v)); simpl; lia.
Qed.

End parallel.

(** C1, as stated, fails: module [A] imports module [B] by two statements,
    and the graph and the export hold one edge from [A] to [B]. *)
Lemma C1_counterexample :
  length (pair_attrs "A" "B" (run_events sample_parallel)) = 2
  ∧ filter (λ e, je_source e = "A" ∧ je_target e = "B")
      (j_edges (export_json_data
         (analyze_import_relationships DependencyAnalyzer_init
            sample_parallel).1))
    = [JsonEdge "A" "B" "from_import" 2 "f" (Some "g")]
  ∧ number_of_edges (dependency_graph
      (analyze_import_relationships DependencyAnalyzer_init sample_parallel).1)
    = 1.
Proof. vm_compute. done. Qed.

(** C1, amended. Whenever an import statement of a run connects module [u]
    to module [v], the graph has an edge from [u] to [v] after the run and
    the export holds exactly one edge with that source and target, however
    many import statements connect the two: the graph keeps one attribute
    dictionary for each ordered pair of modules. *)
Theorem C1_one_edge_per_pair (self : DependencyAnalyzer)
    (pr : project_results) (u v : string) (a : edge_attrs) :
  Resolved u v a ∈ run_events pr →
  ∃ d,
    adj (dependency_graph (analyze_import_relationships self pr).1) !! (u, v)
      = Some d
    ∧ filter (λ e, je_source e = u ∧ je_target e = v)
        (j_edges (export_json_data (analyze_import_relationships self pr).1))
      = [export_edge (u, v, d)].
Proof.
  intros Ha.
  assert (is_Some (adj (dependency_graph (analyze_import_relationships self pr).1)
                     !! (u, v))) as [d Hd].
  { rewrite analyze_adj. eapply merge_attrs_is_Some, elem_of_pair_attrs, Ha. }
  exists d. split; [done|]. by apply exported_edge_unique.
Qed.

Lemma C1_one_edge_per_pair_witness :
  ∃ d,
    adj (dependency_graph
           (analyze_import_relationships DependencyAnalyzer_init
              sample_parallel).1) !! ("A", "B") = Some d
    ∧ filter (λ e, je_source e = "A" ∧ je_target e = "B")
        (j_edges (export_json_data
           (analyze_import_relationships DependencyAnalyzer_init
              sample_parallel).1))
      = [export_edge ("A", "B", d)].
Proof.
  apply (C1_one_edge_per_pair DependencyAnalyzer_init sample_parallel "A" "B"
           (EdgeAttrs (Some "standard") (Some 1%Z) None (Some None))).
  vm_compute. repeat constructor.
Defined.

(** C10, as stated, fails on the imported name: two files with the stem
    [utils] import [x], the first by [from x import y], the second by
    [import x]. The edge has the kind, line and alias of the plain import,
    which was processed last, and still the name [y] of the from-import. *)
Lemma C10_counterexample :
  last (pair_attrs "utils" "x" (run_events sample_stale))
    = Some (EdgeAttrs (Some "standard") (Some 5%Z) None (Some None))
  ∧ adj (dependency_graph
      (analyze_import_relationships DependencyAnalyzer_init sample_stale).1)
      !! ("utils", "x")
    = Some (EdgeAttrs (Some "standard") (Some 5%Z) (Some "y") (Some None))
  ∧ filter (λ e, je_source e = "utils" ∧ je_target e = "x")
      (j_edges (export_json_data
         (analyze_import_relationships DependencyAnalyzer_init sample_stale).1))
    = [JsonEdge "utils" "x" "standard" 5 "y" None].
Proof. vm_compute. done. Qed.

(** C10, amended. When imports of a run connect module [u] to module [v],
    the last of them having the attributes [a], the graph stores one edge
    for the pair and the export holds exactly one: its [import_type],
    [line_number] and [alias] are those of [a]; its [imported_name] is the
    name of the last from-import among them and, when none of them is a
    from-import, the name that the edge had before the run. The counter
    [total_dependencies] of the returned summary is the number of imports
    of the run that resolve; on a new analyzer the number of edges, in the
    graph and in the export, is at most that counter, and it is smaller for
    some project. *)
Theorem C10_merged_edge_attributes :
  (∀ (self : DependencyAnalyzer) (pr : project_results) (u v : string)
     (a : edge_attrs),
     last (pair_attrs u v (run_events pr)) = Some a →
     ∃ d,
       adj (dependency_graph (analyze_import_relationships self pr).1)
         !! (u, v) = Some d
       ∧ filter (λ e, je_source e = u ∧ je_target e = v)
           (j_edges (export_json_data (analyze_import_relationships self pr).1))
         = [export_edge (u, v, d)]
       ∧ e_import_type d = e_import_type a
       ∧ e_line_number d = e_line_number a
       ∧ e_alias d = e_alias a
       ∧ e_imported_name d =
           match last (omap e_imported_name (pair_attrs u v (run_events pr))) with
           | Some n => Some n
           | None =>
               e_imported_name
                 (default no_edge_attrs (adj (dependency_graph self) !! (u, v)))
           end)
  ∧ (∀ (self : DependencyAnalyzer) (pr : project_results),
       ∃ res,
         (analyze_import_relationships self pr).2.1 = Some res
         ∧ total_dependencies (r_summary res) = resolved_count (run_events pr))
  ∧ (∀ pr : project_results,
       ∃ res,
         (analyze_import_relationships DependencyAnalyzer_init pr).2.1 = Some res
         ∧ number_of_edges (r_graph res) ≤ total_dependencies (r_summary res)
         ∧ length (j_edges (export_json_data
                     (analyze_import_relationships DependencyAnalyzer_init pr).1))
           ≤ total_dependencies (r_summary res))
  ∧ ∃ (pr : project_results) res,
      (analyze_import_relationships DependencyAnalyzer_init pr).2.1 = Some res
      ∧ number_of_edges (r_graph res) < total_dependencies (r_summary res)
      ∧ length (j_edges (export_json_data
                  (analyze_import_relationships DependencyAnalyzer_init pr).1))
        < total_dependencies (r_summary res).
Proof.
  split; [|split; [|split]].
  - intros self pr u v a Hlast.
    pose proof Hlast as [l Hl]%last_Some.
    assert (Resolved u v a ∈ run_events pr) as Ha.
    { apply pair_attrs_elem_of. rewrite Hl. apply elem_of_app. right. by left. }
    destruct (resolved_event_attrs _ _ _ _ _ Ha) as ([t Ht] & [ln Hln] & [al Hal]).
    pose proof (analyze_adj self pr u v) as Hadj.
    pose proof (merge_attrs_imported_name
                  (adj (dependency_graph self) !! (u, v))
                  (pair_attrs u v (run_events pr))) as Hname.
    rewrite <- Hadj in Hname. rewrite Hl, merge_attrs_snoc in Hadj.
    eexists. split; [exact Hadj|]. rewrite Hadj in Hname.
    split; [by apply exported_edge_unique|]. simpl.
    rewrite Ht, Hln, Hal. simpl. repeat split. exact Hname.
  - intros self pr. rewrite analyze_unfold. cbn zeta. eexists. split; [done|].
    simpl. unfold linked. by rewrite events_count.
  - intros pr.
    assert (size (adj (dependency_graph
              (analyze_import_relationships DependencyAnalyzer_init pr).1))
            ≤ resolved_count (run_events pr)) as Hle.
    { rewrite analyze_graph. unfold linked. etrans; [apply events_edges_bound|].
      simpl. rewrite register_files_adj. simpl. by rewrite map_size_empty. }
    revert Hle. rewrite analyze_unfold. cbn zeta. intros Hle.
    eexists. split; [done|].
    cbn [r_graph r_summary total_dependencies fst].
    unfold linked at 2 4. rewrite events_count. simpl.
    unfold export_json_data, edge_list; simpl.
    rewrite length_fmap, length_map_to_list. split; exact Hle.
  - exists sample_parallel. eexists. split; [vm_compute; reflexivity|].
    vm_compute. split; lia.
Qed.

Lemma C10_merged_edge_attributes_witness :
  ∃ d,
    adj (dependency_graph
           (analyze_import_relationships DependencyAnalyzer_init sample_stale).1)
      !! ("utils", "x") = Some d
    ∧ e_import_type d = Some "standard"
    ∧ e_line_number d = Some 5%Z
    ∧ e_alias d = Some None
    ∧ e_imported_name d = Some "y".
Proof.
  destruct (proj1 C10_merged_edge_attributes DependencyAnalyzer_init
              sample_stale "utils" "x"
              (EdgeAttrs (Some "standard") (Some 5%Z) None (Some None)))
    as (d & Hd & _ & Ht & Hl & Ha & Hn).
  - vm_compute. reflexivity.
  - exists d. split; [exact Hd|]. split; [exact Ht|]. split; [exact Hl|].
    split; [exact Ha|]. exact Hn.
Defined.

(** ** C2: two files with one stem *)

(** The file registered last under a stem is the one the resolver keeps. *)
Lemma resolver_last_write (items : list (string * parse_data)) fp d :
  parsing_successful d = true →
  module_mapping (resolver_of (items ++ [(fp, d)])) !! PathLib.stem fp = Some fp.
Proof.
  intros Hd. unfold resolver_of, register_files. rewrite foldl_snoc.
  destruct (foldl register_file (empty_resolver, DependencyAnalyzer_init) items)
    as [r self].
  destruct d; [|done]. simpl. by rewrite lookup_insert_eq.
Qed.

(** C2. For the two files [a/utils.py] and [b/utils.py], in this order, the
    resolver maps [utils] to the second file, the one node [utils] carries
    the path of the second file, and the run returns what it returns for
    the second file alone: nothing in the result tells that there was a
    first file. *)
Theorem C2_collision_last_write_wins :
  module_mapping (resolver_of (parsed_files_items sample_collision)) !! "utils"
    = Some "b/utils.py"
  ∧ jn_file_path <$> j_nodes (export_json_data
      (analyze_import_relationships DependencyAnalyzer_init sample_collision).1)
    = ["b/utils.py"]
  ∧ (analyze_import_relationships DependencyAnalyzer_init sample_collision).2
    = (analyze_import_relationships DependencyAnalyzer_init
         sample_collision_second).2.
Proof. vm_compute. done. Qed.

(** ** C3: a root directory that cannot be listed *)

(** [parse_project] never returns the empty dictionary of its [except]
    branch. *)
Lemma parse_project_never_fails root_dir at_root :
  ∃ parsed_files unsupported_files,
    parse_project root_dir at_root
      = (Results parsed_files unsupported_files, "✅ All supported files parsed").
Proof. unfold parse_project. by eexists _, _. Qed.

(** C3. For a root path that names nothing, a root directory that cannot be
    listed, and a root path that names a file, [parse_project] returns what
    it returns for an empty directory: the success message and a result
    with no file. *)
Theorem C3_unlistable_root_reads_as_empty (root_dir : string)
    (entries : list (string * fs_node)) (content : file_content) :
  parse_project root_dir None = parse_project root_dir (Some (Dir true []))
  ∧ parse_project root_dir (Some (Dir false entries))
    = parse_project root_dir (Some (Dir true []))
  ∧ parse_project root_dir (Some (File content))
    = parse_project root_dir (Some (Dir true []))
  ∧ parse_project root_dir (Some (Dir true []))
    = (Results [] [], "✅ All supported files parsed").
Proof. done. Qed.

(** ** C8: the external dependencies of a relative import *)

(** C8. For a module whose text is [from . import helper] the parser records
    a from-import whose module is [None], and the run puts [None], which is
    no string, in the external dependencies that it returns and exports. *)
Theorem C8_relative_import_records_None :
  (parse_project "pkg" (Some sample_relative)).1
    = Results
        [("pkg/mod.py",
          ParseOk [] [] (Imports [] [FromImport None "helper" None 1]) 1
            "from . import helper")]
        []
  ∧ (r_external_dependencies <$>
       (analyze_import_relationships DependencyAnalyzer_init
          (parse_project "pkg" (Some sample_relative)).1).2.1)
    = Some [None]
  ∧ j_external_dependencies (export_json_data
      (analyze_import_relationships DependencyAnalyzer_init
         (parse_project "pkg" (Some sample_relative)).1).1)
    = [None].
Proof. vm_compute. done. Qed.

(** ** C9: what the extractor records *)

Section walk.
Implicit Types (n root : ast_node) (todo : list ast_node).

Lemma queue_size_app todo1 todo2 :
  queue_size (todo1 ++ todo2) = queue_size todo1 + queue_size todo2.
Proof.
  unfold queue_size. apply sum_list_with_app.
Qed.

Lemma queue_size_aliases (names : list alias) :
  queue_size (AliasNode <$> names) = length names.
Proof.
  unfold queue_size. induction names as [|a l IH]; [done|].
  rewrite fmap_cons. cbn [sum_list_with node_size length]. by rewrite IH.
Qed.

(** A node counts for one, and its children for the rest. *)
Lemma node_size_children n :
  node_size n = S (queue_size (iter_child_nodes n)).
Proof.
  assert (∀ c : list ast_node,
    (fix sizes (l : list ast_node) : nat :=
       match l with [] => 0 | x :: l' => node_size x + sizes l' end) c
    = queue_size c) as Hs.
  { unfold queue_size. induction c as [|x c IH]; [done|].
    simpl. by rewrite IH. }
  destruct n; simpl; rewrite ?Hs, ?queue_size_aliases; done.
Qed.

Lemma queue_size_pos n todo : 0 < queue_size (n :: todo).
Proof. unfold queue_size. simpl. rewrite node_size_children. lia. Qed.

(** The loop of [ast.walk] reaches every node under the nodes of its
    queue when it may take as many steps as the queue has nodes. *)
Lemma walk_queue_complete fuel todo root n :
  queue_size todo ≤ fuel → root ∈ todo → in_tree n root →
  n ∈ walk_queue fuel todo.
Proof.
  revert todo root. induction fuel as [|fuel IH]; intros todo root Hsz Hin Ht.
  - destruct todo as [|x todo]; [by apply elem_of_nil in Hin|].
    pose proof (queue_size_pos x todo). lia.
  - destruct todo as [|node rest]; [by apply elem_of_nil in Hin|].
    assert (queue_size (rest ++ iter_child_nodes node) ≤ fuel) as Hsz'.
    { rewrite queue_size_app. unfold queue_size in *. simpl in Hsz.
      rewrite node_size_children in Hsz. unfold queue_size in Hsz. lia. }
    simpl. apply elem_of_cons in Hin as [->|Hin].
    + inversion Ht as [|c ? Hc Htc]; subst; [by left|].
      right. apply (IH _ c); [done| |done]. apply elem_of_app. by right.
    + right. apply (IH _ root); [done| |done]. apply elem_of_app. by left.
Qed.

(** [ast.walk] yields every node of the tree. *)
Lemma walk_complete root n : in_tree n root → n ∈ walk root.
Proof.
  intros Ht. apply (walk_queue_complete _ _ root); [|by left|done].
  unfold queue_size. simpl. lia.
Qed.

Lemma visit_records n acc : recorded n (visit acc n).
Proof.
  destruct n; simpl; try done.
  - apply elem_of_app. right. by left.
  - apply elem_of_app. right. by left.
  - intros a Ha. apply elem_of_app. right.
    apply list_elem_of_fmap. by exists a.
  - intros a Ha. apply elem_of_app. right.
    apply list_elem_of_fmap. by exists a.
Qed.

Lemma visit_keeps n m acc : recorded n acc → recorded n (visit acc m).
Proof.
  destruct n, m; simpl; try done;
    try (intros H; apply elem_of_app; by left);
    try (intros H a Ha; apply elem_of_app; left; by apply H).
Qed.

Lemma foldl_visit_keeps n l acc :
  recorded n acc → recorded n (foldl visit acc l).
Proof.
  revert acc. induction l as [|m l IH]; intros acc H; [done|].
  simpl. by apply IH, visit_keeps.
Qed.

Lemma foldl_visit_records n l acc :
  n ∈ l → recorded n (foldl visit acc l).
Proof.
  revert acc. induction l as [|m l IH]; intros acc Hin.
  - by apply elem_of_nil in Hin.
  - simpl. apply elem_of_cons in Hin as [->|Hin].
    + apply foldl_visit_keeps, visit_records.
    + by apply IH.
Qed.

End walk.

(** For a file that parses, [_parse_python_file] succeeds with the line
    count of the text, and its flat lists hold every [FunctionDef] and
    [ClassDef] node of the tree, at any depth, and every name of every
    [Import] and [ImportFrom] node, with the line of the node. *)
Lemma parse_python_file_complete (code : string) (root n : ast_node) :
  in_tree n root →
  ∃ fs cs si fi,
    parse_python_file (Source code (inr root))
      = ParseOk fs cs (Imports si fi) (length (splitlines code)) code
    ∧ recorded n (Extracted fs cs si fi).
Proof.
  intros Ht. unfold parse_python_file.
  pose proof (foldl_visit_records n (walk root) (Extracted [] [] [] [])
                (walk_complete _ _ Ht)) as H.
  destruct (foldl visit (Extracted [] [] [] []) (walk root)) as [fs cs si fi].
  by exists fs, cs, si, fi.
Qed.

(** C9. A coroutine function, defined by [async def], is a node of class
    [AsyncFunctionDef], for which the extractor has no case: for a module
    that defines the coroutine function [fetch], the function [inner]
    inside it and the function [plain], the list of functions holds [plain]
    and [inner] and not [fetch]. *)
Theorem C9_async_function_not_recorded (code : string) :
  in_tree (AsyncFunctionDef "fetch" 1 (Some 3%Z)
             [FunctionDef "inner" 2 (Some 3%Z) [OtherNode []]]) sample_async
  ∧ parse_python_file (Source code (inr sample_async))
    = ParseOk
        [DefInfo "plain" 4 (Some 5%Z); DefInfo "inner" 2 (Some 3%Z)] []
        (Imports [] []) (length (splitlines code)) code.
Proof.
  split; [|done]. eapply in_tree_child; [|apply in_tree_root]. by left.
Qed.

(** * Further properties of the analyzer *)

(** ** What a run adds, in terms of its input *)

Section input.
Implicit Types (items : list (string * parse_data)) (r : resolver)
  (u v m : string).

Lemma resolved_event_iff r items u v :
  (∃ a, Resolved u v a ∈ import_events r items)
  ↔ imports_name items u v ∧ is_Some (module_mapping r !! v).
Proof.
  split.
  - intros [a Ha]. pose proof Ha as [_ Hv]%resolved_event_ends.
    split; [|done]. apply elem_of_import_events in Ha as (fp & d & Hin & He).
    unfold file_events in He. simpl in He.
    destruct d as [fs cs imports n code|err]; [|by apply elem_of_nil in He].
    exists fp, fs, cs, imports, n, code. split; [done|].
    apply elem_of_app in He as [He|He];
      apply list_elem_of_fmap in He as [i [He Hi]].
    + unfold standard_event in He. case_decide; [|done].
      inversion He; subst. split; [done|]. left. by exists i.
    + unfold from_event in He. destruct (fi_module i) as [t|] eqn:E; [|done].
      case_decide; [|done]. inversion He; subst. split; [done|].
      right. by exists i.
  - intros [(fp & fs & cs & imports & n & code & Hin & <- & Himp) Hv].
    destruct Himp as [(i & Hi & E)|(i & Hi & E)].
    + eexists. apply elem_of_import_events. eexists _, _. split; [exact Hin|].
      unfold file_events; simpl. apply elem_of_app. left.
      apply list_elem_of_fmap. exists i. split; [|done].
      unfold standard_event. rewrite E, decide_True by done. done.
    + eexists. apply elem_of_import_events. eexists _, _. split; [exact Hin|].
      unfold file_events; simpl. apply elem_of_app. right.
      apply list_elem_of_fmap. exists i. split; [|done].
      unfold from_event. rewrite E, decide_True by done. done.
Qed.

Lemma external_name_event_iff r items m :
  External (Some m) ∈ import_events r items
  ↔ (∃ u, imports_name items u m) ∧ module_mapping r !! m = None.
Proof.
  split.
  - intros He. pose proof (external_event_unresolved _ _ _ He) as Hm.
    split; [|done]. apply elem_of_import_events in He as (fp & d & Hin & He).
    unfold file_events in He. simpl in He.
    destruct d as [fs cs imports n code|err]; [|by apply elem_of_nil in He].
    exists (PathLib.stem fp), fp, fs, cs, imports, n, code.
    split; [done|]. split; [done|].
    apply elem_of_app in He as [He|He];
      apply list_elem_of_fmap in He as [i [He Hi]].
    + unfold standard_event in He. case_decide; [done|].
      inversion He; subst. left. by exists i.
    + unfold from_event in He. destruct (fi_module i) as [t|] eqn:E; [|done].
      case_decide; [done|]. inversion He; subst. right. by exists i.
  - intros [(u & fp & fs & cs & imports & n & code & Hin & _ & Himp) Hm].
    apply elem_of_import_events. eexists _, _. split; [exact Hin|].
    unfold file_events; simpl. apply elem_of_app.
    destruct Himp as [(i & Hi & E)|(i & Hi & E)].
    + left. apply list_elem_of_fmap. exists i. split; [|done].
      unfold standard_event. rewrite E, decide_False; [done|].
      rewrite Hm. by intros [? ?].
    + right. apply list_elem_of_fmap. exists i. split; [|done].
      unfold from_event. rewrite E, decide_False; [done|].
      rewrite Hm. by intros [? ?].
Qed.

Lemma external_None_event_iff r items :
  External None ∈ import_events r items ↔ has_relative_import items.
Proof.
  split.
  - intros He. apply elem_of_import_events in He as (fp & d & Hin & He).
    unfold file_events in He. simpl in He.
    destruct d as [fs cs imports n code|err]; [|by apply elem_of_nil in He].
    apply elem_of_app in He as [He|He];
      apply list_elem_of_fmap in He as [i [He Hi]].
    + unfold standard_event in He. by case_decide.
    + unfold from_event in He. destruct (fi_module i) as [t|] eqn:E.
      * by case_decide.
      * by exists fp, fs, cs, imports, n, code, i.
  - intros (fp & fs & cs & imports & n & code & i & Hin & Hi & E).
    apply elem_of_import_events. eexists _, _. split; [exact Hin|].
    unfold file_events; simpl. apply elem_of_app. right.
    apply list_elem_of_fmap. exists i. split; [|done].
    unfold from_event. by rewrite E.
Qed.

Lemma merge_attrs_is_Some_iff o l :
  is_Some (merge_attrs o l) ↔ is_Some o ∨ l ≠ [].
Proof.
  destruct l as [|b l _] using rev_ind.
  - simpl. naive_solver.
  - rewrite merge_attrs_snoc. split; [intros _; right|by eexists].
    by destruct l.
Qed.

Lemma pair_attrs_nonempty u v evs :
  pair_attrs u v evs ≠ [] ↔ ∃ a, Resolved u v a ∈ evs.
Proof.
  split.
  - destruct (pair_attrs u v evs) as [|a l] eqn:E; [done|]. intros _.
    exists a. apply pair_attrs_elem_of. rewrite E. by left.
  - intros [a Ha%elem_of_pair_attrs] E. rewrite E in Ha.
    by apply elem_of_nil in Ha.
Qed.

End input.

(** X1. After a run, whatever the analyzer held before, the nodes of the
    graph are the nodes it had and the stems of the files of the input that
    parsed: a file that failed to parse adds no node. *)
Theorem nodes_after_run (self : DependencyAnalyzer) (pr : project_results)
    (m : string) :
  is_Some (nodes (dependency_graph (analyze_import_relationships self pr).1) !! m)
  ↔ is_Some (nodes (dependency_graph self) !! m)
    ∨ ∃ fp d, (fp, d) ∈ parsed_files_items pr
              ∧ parsing_successful d = true ∧ PathLib.stem fp = m.
Proof. by rewrite analyze_nodes, elem_of_module_ids. Qed.

(** X2. After a run there is an edge from [u] to [v] exactly when there was
    one before or a parsed file of module [u] has an import, plain or from,
    of the name [v] and [v] is the stem of a parsed file of the input: an
    import of any other name adds no edge. *)
Theorem edges_after_run (self : DependencyAnalyzer) (pr : project_results)
    (u v : string) :
  is_Some (adj (dependency_graph (analyze_import_relationships self pr).1)
             !! (u, v))
  ↔ is_Some (adj (dependency_graph self) !! (u, v))
    ∨ (imports_name (parsed_files_items pr) u v
       ∧ v ∈ module_ids (parsed_files_items pr)).
Proof.
  rewrite analyze_adj, merge_attrs_is_Some_iff, pair_attrs_nonempty.
  unfold run_events. by rewrite resolved_event_iff, resolver_of_mapping.
Qed.

(** X3. After a run the external dependencies are the ones held before,
    every imported name that is the stem of no parsed file of the input,
    and [None] when a parsed file has a from-import without a module. *)
Theorem externals_after_run (self : DependencyAnalyzer) (pr : project_results) :
  (∀ m,
     Some m ∈ external_dependencies (analyze_import_relationships self pr).1
     ↔ Some m ∈ external_dependencies self
       ∨ ((∃ u, imports_name (parsed_files_items pr) u m)
          ∧ m ∉ module_ids (parsed_files_items pr)))
  ∧ (None ∈ external_dependencies (analyze_import_relationships self pr).1
     ↔ None ∈ external_dependencies self
       ∨ has_relative_import (parsed_files_items pr)).
Proof.
  split; [intros m|]; rewrite analyze_external; unfold linked;
    rewrite events_external; simpl; rewrite register_files_external;
    unfold run_events.
  - rewrite external_name_event_iff, <- resolver_of_mapping.
    by rewrite eq_None_not_Some.
  - by rewrite external_None_event_iff.
Qed.

(** ** Counting imports *)

Section counting.
Implicit Types (items : list (string * parse_data)) (r : resolver)
  (evs : list import_event).

Lemma events_partition evs :
  resolved_count evs + length (external_targets evs) = length evs.
Proof.
  unfold resolved_count, external_targets.
  induction evs as [|e evs IH]; [done|].
  rewrite filter_cons. destruct e as [u v a|x].
  - rewrite decide_True by done. cbn [omap list_omap length]. lia.
  - rewrite decide_False by done. cbn [omap list_omap length]. lia.
Qed.

Lemma length_import_events r items :
  length (import_events r items) = import_count items.
Proof.
  unfold import_events, import_count. induction items as [|[fp d] items IH]; [done|].
  rewrite bind_cons, length_app, IH. simpl. f_equal.
  unfold file_events; simpl. destruct d; [|done].
  by rewrite length_app, !length_fmap.
Qed.

Lemma external_targets_nil evs :
  external_targets evs = [] ↔ ∀ x, External x ∉ evs.
Proof.
  unfold external_targets. split.
  - intros E x Hx. assert (x ∈ @nil (option string)) as H; [|by apply elem_of_nil in H].
    rewrite <- E. apply list_elem_of_omap. by exists (External x).
  - intros H. destruct (omap _ evs) as [|x l] eqn:E; [done|].
    assert (x ∈ x :: l) as Hx by left. rewrite <- E in Hx.
    apply list_elem_of_omap in Hx as (e & He & Hx). destruct e; [done|].
    inversion Hx; subst. by destruct (H x).
Qed.

End counting.

(** X4. On a new analyzer, the counter [total_dependencies] is at most the
    number of import records of the parsed files, and it equals that number
    exactly when the run records no external dependency: every import is
    either counted as a dependency or recorded as external. *)
Theorem dependencies_and_imports (pr : project_results) :
  ∃ res,
    (analyze_import_relationships DependencyAnalyzer_init pr).2.1 = Some res
    ∧ total_dependencies (r_summary res) ≤ import_count (parsed_files_items pr)
    ∧ (total_dependencies (r_summary res) = import_count (parsed_files_items pr)
       ↔ r_external_dependencies res = []).
Proof.
  pose proof (analyze_external DependencyAnalyzer_init pr) as Hext.
  revert Hext. rewrite analyze_unfold. cbn zeta. intros Hext.
  eexists. split; [done|]. cbn [r_summary total_dependencies r_external_dependencies].
  cbn [fst] in Hext. rewrite Hext.
  unfold linked at 1 2. rewrite events_count. simpl.
  pose proof (events_partition (run_events pr)) as Hp.
  unfold run_events in Hp at 3. rewrite length_import_events in Hp.
  split; [lia|].
  rewrite elements_empty_iff. fold_leibniz.
  assert (external_targets (run_events pr) = []
          ↔ external_dependencies (linked DependencyAnalyzer_init pr).1 = ∅)
    as <-.
  { rewrite external_targets_nil. split.
    - intros H. apply set_eq. intros x. split; [|intros Hx; by apply not_elem_of_empty in Hx].
      unfold linked. rewrite events_external. simpl.
      rewrite register_files_external. simpl.
      intros [Hx|Hx]; [done|]. by destruct (H x).
    - intros E x Hx.
      assert (x ∈ external_dependencies (linked DependencyAnalyzer_init pr).1)
        as Hin; [|rewrite E in Hin; by apply not_elem_of_empty in Hin].
      unfold linked. apply events_external. by right. }
  split.
  - intros E. destruct (external_targets (run_events pr)); [done|]. simpl in Hp. lia.
  - intros E. rewrite E in Hp. simpl in Hp. lia.
Qed.

(** ** The tables after a run, value by value *)

Section tables.
Implicit Types (items : list (string * parse_data)) (r : resolver)
  (self : DependencyAnalyzer) (pr : project_results).

(** A table after a sequence of assignments holds, under a key, the value
    of the last assignment to that key. *)
Lemma foldl_insert_lookup {A} (kvs : list (string * A)) (m : gmap string A) k :
  foldl (λ m kv, <[kv.1 := kv.2]> m) m kvs !! k
    = match last (filter (λ kv, kv.1 = k) kvs) with
      | Some kv => Some kv.2
      | None => m !! k
      end.
Proof.
  induction kvs as [|[k' v] kvs IH] using rev_ind; [done|].
  rewrite foldl_snoc, filter_app, filter_cons, filter_nil, lookup_insert. simpl.
  destruct (decide (k' = k)) as [->|Hne].
  - by rewrite last_snoc.
  - by rewrite app_nil_r.
Qed.

Lemma foldl_insert_idemp {A} (kvs : list (string * A)) (m : gmap string A) :
  foldl (λ m kv, <[kv.1 := kv.2]> m)
    (foldl (λ m kv, <[kv.1 := kv.2]> m) m kvs) kvs
  = foldl (λ m kv, <[kv.1 := kv.2]> m) m kvs.
Proof.
  apply map_eq. intros k. rewrite !foldl_insert_lookup.
  by destruct (last (filter (λ kv, kv.1 = k) kvs)).
Qed.

Lemma register_files_node_table items r self :
  nodes (dependency_graph (register_files (r, self) items).2)
    = foldl (λ m kv, <[kv.1 := kv.2]> m) (nodes (dependency_graph self))
        (omap node_update items).
Proof.
  revert r self. induction items as [|[fp d] items IH]; intros r self; [done|].
  rewrite register_files_cons. destruct d; simpl; by rewrite IH.
Qed.

Lemma register_files_info_table items r self :
  module_info (register_files (r, self) items).2
    = foldl (λ m kv, <[kv.1 := kv.2]> m) (module_info self)
        (omap info_update items).
Proof.
  revert r self. induction items as [|[fp d] items IH]; intros r self; [done|].
  rewrite register_files_cons. destruct d; simpl; by rewrite IH.
Qed.

Lemma ensure_node_present (ns : gmap string node_attrs) n :
  is_Some (ns !! n) → ensure_node ns n = ns.
Proof. intros [a H]. unfold ensure_node. by rewrite H. Qed.

(** An import between two nodes leaves the node table as it is. *)
Lemma events_node_table evs st :
  (∀ u v a, Resolved u v a ∈ evs →
     is_Some (nodes (dependency_graph st.1) !! u)
     ∧ is_Some (nodes (dependency_graph st.1) !! v)) →
  nodes (dependency_graph (foldl apply_event st evs).1)
    = nodes (dependency_graph st.1).
Proof.
  revert st. induction evs as [|e evs IH]; intros st H; [done|].
  cbn [foldl].
  assert (nodes (dependency_graph (apply_event st e).1)
          = nodes (dependency_graph st.1)) as E.
  { destruct e as [u v a|x]; [|done].
    destruct (H u v a) as [Hu Hv]; [by left|].
    unfold apply_event, set_graph, add_edge; simpl.
    by rewrite (ensure_node_present _ u), (ensure_node_present _ v). }
  rewrite IH, E; [done|]. intros u v a Hin. rewrite E. apply (H u v a).
  by right.
Qed.

Lemma events_module_info evs st :
  module_info (foldl apply_event st evs).1 = module_info st.1.
Proof.
  revert st. induction evs as [|e evs IH]; intros st; [done|].
  cbn [foldl]. rewrite IH. by destruct e.
Qed.

Lemma linked_node_table self pr :
  nodes (dependency_graph (linked self pr).1)
    = foldl (λ m kv, <[kv.1 := kv.2]> m) (nodes (dependency_graph self))
        (omap node_update (parsed_files_items pr)).
Proof.
  unfold linked. rewrite events_node_table; simpl.
  - apply register_files_node_table.
  - intros u v a [Hu Hv]%resolved_event_ends.
    apply resolver_of_mapping in Hv. rewrite !register_files_nodes. tauto.
Qed.

Lemma linked_info_table self pr :
  module_info (linked self pr).1
    = foldl (λ m kv, <[kv.1 := kv.2]> m) (module_info self)
        (omap info_update (parsed_files_items pr)).
Proof.
  unfold linked. rewrite events_module_info. simpl.
  apply register_files_info_table.
Qed.

Lemma linked_adj self pr u v :
  adj (dependency_graph (linked self pr).1) !! (u, v)
    = merge_attrs (adj (dependency_graph self) !! (u, v))
        (pair_attrs u v (run_events pr)).
Proof. by rewrite <- analyze_graph, analyze_adj. Qed.

Lemma linked_external self pr :
  external_dependencies (linked self pr).1
    = list_to_set (external_targets (run_events pr))
      ∪ external_dependencies self.
Proof.
  apply set_eq. intros x. unfold linked. rewrite events_external. simpl.
  rewrite register_files_external, elem_of_union, elem_of_list_to_set.
  unfold external_targets. rewrite list_elem_of_omap. split.
  - intros [?|?]; [by right|]. left. by exists (External x).
  - intros [(e & He & Hx)|?]; [|by left]. right.
    destruct e; [done|]. by inversion Hx; subst.
Qed.

Lemma linked_count self pr : (linked self pr).2 = resolved_count (run_events pr).
Proof. unfold linked. by rewrite events_count. Qed.

(** The last entry of a list of assignments for a key that no later entry
    assigns. *)
Lemma foldl_insert_last {A} (kvs1 kvs2 : list (string * A))
    (m : gmap string A) k v :
  k ∉ kvs2.*1 →
  foldl (λ m kv, <[kv.1 := kv.2]> m) m (kvs1 ++ (k, v) :: kvs2) !! k = Some v.
Proof.
  intros Hk. rewrite foldl_insert_lookup, filter_app, filter_cons. simpl.
  rewrite decide_True by done.
  rewrite (filter_key_absent kvs2 k Hk).
  by rewrite last_snoc.
Qed.

End tables.

(** X5. When several parsed files have the same stem, the node and the
    entry of [module_info] of that stem are those of the last of them in
    the order of [parsed_files]: its path, its numbers of functions and of
    classes and its line count, in the graph and in the export. *)
Theorem node_of_last_file (self : DependencyAnalyzer)
    (l1 l2 : list (string * parse_data)) (unsupported : list string)
    (fp : string) (fs cs : list def_info) (imports : imports_t) (n : nat)
    (code : string) :
  (∀ fp' d', (fp', d') ∈ l2 → parsing_successful d' = true →
             PathLib.stem fp' ≠ PathLib.stem fp) →
  nodes (dependency_graph
    (analyze_import_relationships self
       (Results (l1 ++ (fp, ParseOk fs cs imports n code) :: l2) unsupported)).1)
    !! PathLib.stem fp
    = Some (NodeAttrs (Some fp) (Some (length fs)) (Some (length cs)) (Some n))
  ∧ module_info
      (analyze_import_relationships self
         (Results (l1 ++ (fp, ParseOk fs cs imports n code) :: l2) unsupported)).1
      !! PathLib.stem fp
    = Some (ModuleInfo fp fs cs imports (Metrics (length fs) (length cs) n))
  ∧ JsonNode (PathLib.stem fp) fp (length fs) (length cs) n
    ∈ j_nodes (export_json_data
        (analyze_import_relationships self
           (Results (l1 ++ (fp, ParseOk fs cs imports n code) :: l2)
              unsupported)).1).
Proof.
  intros Hl2.
  set (pr := Results (l1 ++ (fp, ParseOk fs cs imports n code) :: l2) unsupported).
  assert (nodes (dependency_graph (analyze_import_relationships self pr).1)
            !! PathLib.stem fp
          = Some (NodeAttrs (Some fp) (Some (length fs)) (Some (length cs))
                    (Some n))) as Hnode.
  { rewrite analyze_graph, linked_node_table. simpl.
    rewrite omap_app. simpl. apply foldl_insert_last.
    intros [[k a] [Hk Hin]]%list_elem_of_fmap. simpl in Hk.
    apply list_elem_of_omap in Hin as ([fp' d'] & Hin & Hu).
    unfold node_update in Hu. simpl in Hu. destruct d'; [|done].
    inversion Hu; subst. by eapply Hl2. }
  split; [exact Hnode|]. split.
  - rewrite analyze_unfold. cbn zeta. cbn [fst].
    change (module_info (identify_orphaned_modules
              (detect_circular_dependencies (linked self pr).1)))
      with (module_info (linked self pr).1).
    rewrite linked_info_table. simpl. rewrite omap_app. simpl.
    apply foldl_insert_last.
    intros [[k a] [Hk Hin]]%list_elem_of_fmap. simpl in Hk.
    apply list_elem_of_omap in Hin as ([fp' d'] & Hin & Hu).
    unfold info_update in Hu. simpl in Hu. destruct d'; [|done].
    inversion Hu; subst. by eapply Hl2.
  - unfold export_json_data; simpl. apply list_elem_of_fmap.
    eexists (PathLib.stem fp, _). split; [|by apply elem_of_map_to_list].
    done.
Qed.

Lemma node_of_last_file_witness :
  nodes (dependency_graph
    (analyze_import_relationships DependencyAnalyzer_init sample_collision).1)
    !! "utils"
  = Some (NodeAttrs (Some "b/utils.py") (Some 0) (Some 0) (Some 1)).
Proof.
  refine (proj1 (node_of_last_file DependencyAnalyzer_init
    [("a/utils.py", ParseOk [DefInfo "f" 1 (Some 2%Z)] [] (Imports [] []) 2 "")]
    [] [] "b/utils.py" [] [] (Imports [] []) 1 "" _)).
  intros fp' d' Hin. by apply elem_of_nil in Hin.
Defined.

(** ** The attribute dictionaries of the graph *)

Section complete.
Implicit Types (g : DiGraph) (self : DependencyAnalyzer) (pr : project_results).

(** The shape of the attributes of a resolved import. *)
Lemma resolved_event_shape r items u v a :
  Resolved u v a ∈ import_events r items →
  (∃ ln al, a = EdgeAttrs (Some "standard") (Some ln) None (Some al))
  ∨ (∃ ln nm al, a = EdgeAttrs (Some "from_import") (Some ln) (Some nm) (Some al)).
Proof.
  rewrite elem_of_import_events. intros (fp & d & Hin & He).
  unfold file_events in He. simpl in He.
  destruct d as [fs cs imports n code|err]; [|by apply elem_of_nil in He].
  apply elem_of_app in He as [He|He]; apply list_elem_of_fmap in He as [i [He _]].
  - unfold standard_event in He. case_decide; [|done].
    inversion He; subst. left. by eexists _, _.
  - unfold from_event in He. destruct (fi_module i); [|done].
    case_decide; [|done]. inversion He; subst. right. by eexists _, _, _.
Qed.

Lemma update_edge_complete old a :
  (∃ ln al, a = EdgeAttrs (Some "standard") (Some ln) None (Some al))
  ∨ (∃ ln nm al, a = EdgeAttrs (Some "from_import") (Some ln) (Some nm) (Some al)) →
  edge_complete (update_edge_attrs old a).
Proof.
  intros [(ln & al & ->)|(ln & nm & al & ->)]; unfold edge_complete; simpl.
  - split; [by left|]. by split.
  - split; [right; by split|]. by split.
Qed.

Lemma analyze_attrs_complete self pr :
  attrs_complete (dependency_graph self) →
  attrs_complete (dependency_graph (analyze_import_relationships self pr).1).
Proof.
  intros [Hn He]. split.
  - intros m a. rewrite analyze_graph, linked_node_table, foldl_insert_lookup.
    destruct (last _) as [[k b]|] eqn:E; [|apply Hn].
    intros [= <-]. apply last_Some_elem_of, list_elem_of_filter in E as [_ E].
    apply list_elem_of_omap in E as ([fp d] & _ & Hu).
    unfold node_update in Hu. simpl in Hu. destruct d; [|done].
    inversion Hu; subst. unfold node_complete; simpl. by repeat split.
  - intros u v d. rewrite analyze_adj.
    destruct (pair_attrs u v (run_events pr)) as [|b l _] eqn:E using rev_ind.
    + simpl. apply He.
    + rewrite merge_attrs_snoc. intros [= <-]. apply update_edge_complete.
      assert (Resolved u v b ∈ run_events pr) as Hb.
      { apply pair_attrs_elem_of. rewrite E. apply elem_of_app. right. by left. }
      by eapply resolved_event_shape.
Qed.

Lemma reachable_attrs_complete self :
  reachable self → attrs_complete (dependency_graph self).
Proof.
  induction 1 as [|self pr _ IH]; [|by apply analyze_attrs_complete].
  split; intros *; simpl; by rewrite lookup_empty.
Qed.

End complete.

(** X6. In every state that an analyzer reaches, every node carries its four
    attributes and every edge a kind, a line and an alias entry, the kind
    being [standard] or [from_import]: the defaults of the export (an empty
    path, the kind [unknown]) are never written. *)
Theorem export_uses_no_default (self : DependencyAnalyzer) :
  reachable self →
  attrs_complete (dependency_graph self)
  ∧ (∀ e, e ∈ j_edges (export_json_data self) →
          je_import_type e = "standard" ∨ je_import_type e = "from_import")
  ∧ (∀ nd, nd ∈ j_nodes (export_json_data self) →
           n_file_path <$> nodes (dependency_graph self) !! jn_id nd
             = Some (Some (jn_file_path nd))).
Proof.
  intros Hr. pose proof (reachable_attrs_complete _ Hr) as [Hn He].
  split; [by split|]. split.
  - intros e (u & v & d & Hd & ->)%elem_of_exported_edges.
    destruct (He _ _ _ Hd) as [[Ht|[Ht _]] _]; simpl; rewrite Ht; auto.
  - intros nd. unfold export_json_data; simpl.
    intros [[m a] [-> Hin]]%list_elem_of_fmap.
    apply elem_of_map_to_list in Hin. simpl. rewrite Hin. simpl.
    destruct (Hn _ _ Hin) as ([p Hp] & _). by rewrite Hp.
Qed.

Lemma export_uses_no_default_witness :
  attrs_complete (dependency_graph
    (analyze_import_relationships DependencyAnalyzer_init sample_cycle).1).
Proof.
  apply (export_uses_no_default
           (analyze_import_relationships DependencyAnalyzer_init sample_cycle).1).
  apply reachable_run, reachable_init.
Defined.

(** ** Running the same project again *)

Section rerun.
Implicit Types (self : DependencyAnalyzer) (pr : project_results)
  (o : option edge_attrs) (l : list edge_attrs).

(** A key of a merged dictionary holds the last value that was given for
    it. *)
Lemma merge_attrs_field {A} (f : edge_attrs → option A) o l :
  (∀ old new, f (update_edge_attrs old new) = upd (f old) (f new)) →
  f (default no_edge_attrs (merge_attrs o l))
    = match last (omap f l) with
      | Some x => Some x
      | None => f (default no_edge_attrs o)
      end.
Proof.
  intros Hf. induction l as [|a l IH] using rev_ind; [done|].
  rewrite merge_attrs_snoc, omap_app. simpl. rewrite Hf, IH.
  destruct (f a) as [x|]; simpl.
  - by rewrite last_snoc.
  - by rewrite app_nil_r.
Qed.

Lemma edge_attrs_eq (d1 d2 : edge_attrs) :
  e_import_type d1 = e_import_type d2 → e_line_number d1 = e_line_number d2 →
  e_imported_name d1 = e_imported_name d2 → e_alias d1 = e_alias d2 →
  d1 = d2.
Proof. destruct d1, d2; simpl; congruence. Qed.

(** Merging the same dictionaries a second time changes nothing. *)
Lemma merge_attrs_idemp o l :
  merge_attrs (merge_attrs o l) l = merge_attrs o l.
Proof.
  destruct (decide (l = [])) as [->|Hl]; [done|].
  assert (∀ o', merge_attrs o' l
                = Some (default no_edge_attrs (merge_attrs o' l))) as Hs.
  { intros o'. destruct (proj2 (merge_attrs_is_Some_iff o' l)) as [d Hd];
      [by right|]. by rewrite Hd. }
  transitivity (Some (default no_edge_attrs (merge_attrs (merge_attrs o l) l)));
    [apply Hs|].
  transitivity (Some (default no_edge_attrs (merge_attrs o l)));
    [|symmetry; apply Hs].
  f_equal. apply edge_attrs_eq.
  - rewrite (merge_attrs_field e_import_type (merge_attrs o l)) by done.
    rewrite (merge_attrs_field e_import_type o) by done.
    by destruct (last (omap e_import_type l)).
  - rewrite (merge_attrs_field e_line_number (merge_attrs o l)) by done.
    rewrite (merge_attrs_field e_line_number o) by done.
    by destruct (last (omap e_line_number l)).
  - rewrite (merge_attrs_field e_imported_name (merge_attrs o l)) by done.
    rewrite (merge_attrs_field e_imported_name o) by done.
    by destruct (last (omap e_imported_name l)).
  - rewrite (merge_attrs_field e_alias (merge_attrs o l)) by done.
    rewrite (merge_attrs_field e_alias o) by done.
    by destruct (last (omap e_alias l)).
Qed.

Lemma DiGraph_eq (g1 g2 : DiGraph) :
  nodes g1 = nodes g2 → adj g1 = adj g2 → g1 = g2.
Proof. destruct g1, g2; simpl; congruence. Qed.

(** The outcome of a run depends on the graph, the module table and the
    external set that the analyzer held, not on its two lists. *)
Lemma analyze_depends self self' pr :
  dependency_graph self = dependency_graph self' →
  module_info self = module_info self' →
  external_dependencies self = external_dependencies self' →
  analyze_import_relationships self pr = analyze_import_relationships self' pr.
Proof.
  intros Hg Hm He.
  assert (dependency_graph (linked self pr).1
          = dependency_graph (linked self' pr).1) as Hg'.
  { apply DiGraph_eq.
    - by rewrite !linked_node_table, Hg.
    - apply map_eq. intros [u v]. by rewrite !linked_adj, Hg. }
  assert (module_info (linked self pr).1 = module_info (linked self' pr).1)
    as Hm' by (by rewrite !linked_info_table, Hm).
  assert (external_dependencies (linked self pr).1
          = external_dependencies (linked self' pr).1)
    as He' by (by rewrite !linked_external, He).
  rewrite !analyze_unfold. cbn zeta.
  unfold identify_orphaned_modules, detect_circular_dependencies. simpl.
  by rewrite Hg', Hm', He', !linked_count.
Qed.

End rerun.

(** X7. Analysing the same project a second time with the same analyzer
    changes nothing: the second run leaves the state that the first left
    and returns the same result. *)
Theorem rerun_same_project (self : DependencyAnalyzer) (pr : project_results) :
  analyze_import_relationships (analyze_import_relationships self pr).1 pr
    = analyze_import_relationships self pr.
Proof.
  set (self1 := (analyze_import_relationships self pr).1).
  assert (dependency_graph (linked self1 pr).1 = dependency_graph self1) as Hg.
  { apply DiGraph_eq.
    - rewrite linked_node_table. unfold self1.
      by rewrite analyze_graph, linked_node_table, foldl_insert_idemp.
    - apply map_eq. intros [u v]. rewrite linked_adj. unfold self1.
      by rewrite analyze_adj, merge_attrs_idemp. }
  assert (module_info (linked self1 pr).1 = module_info self1) as Hm.
  { rewrite linked_info_table. unfold self1. rewrite analyze_unfold. cbn zeta.
    change (module_info (identify_orphaned_modules
              (detect_circular_dependencies (linked self pr).1), _).1)
      with (module_info (linked self pr).1).
    by rewrite linked_info_table, foldl_insert_idemp. }
  assert (external_dependencies (linked self1 pr).1
          = external_dependencies self1) as He.
  { rewrite linked_external. unfold self1.
    rewrite analyze_external, linked_external. set_solver. }
  assert (analyze_import_relationships self1 pr
          = (self1, (analyze_import_relationships self pr).2)) as ->.
  { rewrite (analyze_unfold self1). cbn zeta.
    unfold identify_orphaned_modules, detect_circular_dependencies. simpl.
    rewrite Hg, Hm, He, linked_count. unfold self1.
    rewrite (analyze_unfold self). cbn zeta.
    unfold identify_orphaned_modules, detect_circular_dependencies. simpl.
    by rewrite linked_count. }
  unfold self1. by destruct (analyze_import_relationships self pr).
Qed.

(** ** Files that failed to parse *)

Section failed.
Implicit Types (items : list (string * parse_data)) (r : resolver)
  (self : DependencyAnalyzer).

Lemma register_files_skip_failed items r self :
  register_files (r, self)
    (filter (λ it, parsing_successful it.2 = true) items)
  = register_files (r, self) items.
Proof.
  revert r self. induction items as [|[fp d] items IH]; intros r self; [done|].
  rewrite filter_cons. destruct d as [fs cs imports n code|err].
  - rewrite decide_True by done. rewrite !register_files_cons. apply IH.
  - rewrite decide_False by done. rewrite register_files_cons. apply IH.
Qed.

Lemma import_events_skip_failed items r :
  import_events r (filter (λ it, parsing_successful it.2 = true) items)
  = import_events r items.
Proof.
  unfold import_events. induction items as [|[fp d] items IH]; [done|].
  rewrite filter_cons. destruct d as [fs cs imports n code|err].
  - rewrite decide_True by done. by rewrite !bind_cons, IH.
  - rewrite decide_False by done. by rewrite bind_cons, IH.
Qed.

End failed.

(** X8. The files that failed to parse do not count: a run on a project
    leaves the state and returns the result of a run on the files of the
    project that parsed, whatever the list of unsupported files. *)
Theorem failed_files_are_skipped (self : DependencyAnalyzer)
    (items : list (string * parse_data)) (unsupported unsupported' : list string) :
  analyze_import_relationships self (Results items unsupported)
  = analyze_import_relationships self
      (Results (filter (λ it, parsing_successful it.2 = true) items)
         unsupported').
Proof.
  rewrite !analyze_unfold.
  assert (linked self (Results items unsupported)
          = linked self
              (Results (filter (λ it, parsing_successful it.2 = true) items)
                 unsupported')) as ->; [|done].
  unfold linked, run_events, resolver_of. simpl.
  by rewrite !register_files_skip_failed, import_events_skip_failed.
Qed.

(** X9. A run never takes the failure branch: whatever the analyzer holds
    and whatever the input, no file path is missing from [file_to_module],
    the run returns a result with the message of success, and the counts
    of its summary are the sizes of what the analyzer then holds and
    exports. *)
Theorem run_returns_consistent_summary (self : DependencyAnalyzer)
    (pr : project_results) :
  ∃ res,
    (analyze_import_relationships self pr).2
      = (Some res, "✅ Dependency graph analysis completed")
    ∧ r_graph res = dependency_graph (analyze_import_relationships self pr).1
    ∧ total_modules (r_summary res)
      = length (j_nodes (export_json_data
                  (analyze_import_relationships self pr).1))
    ∧ external_count (r_summary res)
      = length (j_external_dependencies (export_json_data
                  (analyze_import_relationships self pr).1))
    ∧ circular_count (r_summary res)
      = length (j_circular_dependencies (export_json_data
                  (analyze_import_relationships self pr).1))
    ∧ orphaned_count (r_summary res)
      = length (j_orphaned_modules (export_json_data
                  (analyze_import_relationships self pr).1))
    ∧ r_external_dependencies res
      = j_external_dependencies (export_json_data
          (analyze_import_relationships self pr).1)
    ∧ r_circular_dependencies res
      = j_circular_dependencies (export_json_data
          (analyze_import_relationships self pr).1)
    ∧ r_orphaned_modules res
      = j_orphaned_modules (export_json_data
          (analyze_import_relationships self pr).1).
Proof.
  rewrite analyze_unfold. cbn zeta. eexists. split; [done|].
  unfold export_json_data. simpl.
  rewrite length_fmap, length_map_to_list. by repeat split.
Qed.

(** ** The cycles that a run reports *)

Section reported.
Implicit Types (g : DiGraph) (s v cur : string) (path c : list string).

Lemma circuits_from_simple fuel g s unvisited path cur (ns : list string) c :
  c ∈ circuits_from fuel g s unvisited path cur →
  NoDup path → (∀ x, x ∈ unvisited → x ∉ path) →
  (∀ x, x ∈ path → x ∈ ns) → (∀ x, x ∈ unvisited → x ∈ ns) →
  NoDup c ∧ ∀ x, x ∈ c → x ∈ ns.
Proof.
  revert unvisited path cur.
  induction fuel as [|fuel IH]; intros unvisited path cur Hc Hnd Hdis Hp Hu.
  - by apply elem_of_nil in Hc.
  - simpl in Hc. apply elem_of_flat_map in Hc as (v & Hv & Hc).
    case_decide as Hs.
    + case_decide; [by apply elem_of_nil in Hc|].
      apply list_elem_of_singleton in Hc as ->. split.
      * by rewrite reverse_Permutation.
      * intros x Hx. rewrite elem_of_reverse in Hx. by apply Hp.
    + case_decide as Hin; [|by apply elem_of_nil in Hc].
      apply (IH (filter (λ x, x ≠ v) unvisited) (v :: path) v); [done|..].
      * apply NoDup_cons. split; [by apply Hdis|done].
      * intros x [Hne Hx]%list_elem_of_filter [->|Hxp]%elem_of_cons; [done|].
        by apply (Hdis x).
      * intros x [->|Hx]%elem_of_cons; [by apply Hu|by apply Hp].
      * intros x [_ Hx]%list_elem_of_filter. by apply Hu.
Qed.

Lemma circuits_over_simple g (ns all : list string) c :
  c ∈ circuits_over g ns → NoDup ns → (∀ x, x ∈ ns → x ∈ all) →
  NoDup c ∧ ∀ x, x ∈ c → x ∈ all.
Proof.
  induction ns as [|s rest IH]; intros Hc Hnd Hall.
  - by apply elem_of_nil in Hc.
  - apply NoDup_cons in Hnd as [Hs Hnd]. cbn [circuits_over] in Hc.
    apply elem_of_app in Hc as [Hc|Hc].
    + apply (circuits_from_simple _ _ _ _ _ _ all _ Hc).
      * apply NoDup_singleton.
      * intros x Hx [->|Hn]%elem_of_cons; [done|by apply elem_of_nil in Hn].
      * intros x [->|Hn]%elem_of_cons; [|by apply elem_of_nil in Hn].
        apply Hall. by left.
      * intros x Hx. apply Hall. by right.
    + apply IH; [done|done|]. intros x Hx. apply Hall. by right.
Qed.

(** A reported cycle repeats no node and stays among the nodes. *)
Lemma simple_cycles_simple g c :
  c ∈ simple_cycles g → NoDup c ∧ ∀ x, x ∈ c → x ∈ node_list g.
Proof.
  unfold simple_cycles. intros [Hc|Hc]%elem_of_app.
  - unfold self_loop_cycles in Hc.
    apply list_elem_of_fmap in Hc as (v & -> & Hv).
    apply list_elem_of_filter in Hv as [_ Hv]. split; [apply NoDup_singleton|].
    by intros x ->%list_elem_of_singleton.
  - apply (circuits_over_simple _ _ _ _ Hc); [|done].
    apply NoDup_fst_map_to_list.
Qed.

(** In a walk, every node but the last reached has an edge to the next. *)
Lemma rev_walk_out g path n :
  rev_walk g path → n ∈ tail path → ∃ v, is_Some (adj g !! (n, v)).
Proof.
  induction 1 as [x|y x l He Hw IH]; simpl.
  - intros Hn. by apply elem_of_nil in Hn.
  - intros [->|Hn]%elem_of_cons; [by exists y|]. by apply IH.
Qed.

Lemma rev_walk_in g path n :
  rev_walk g path → n ∈ path → head (reverse path) ≠ Some n →
  ∃ u, is_Some (adj g !! (u, n)).
Proof.
  induction 1 as [x|y x l He Hw IH].
  - intros ->%list_elem_of_singleton. by simpl.
  - intros [->|Hn]%elem_of_cons Hh; [by exists x|]. apply IH; [done|].
    rewrite head_reverse in *. by rewrite last_cons_cons in Hh.
Qed.

(** Every node of a closed walk has an edge out and an edge in. *)
Lemma closed_walk_degrees g c n :
  closed_walk g c → n ∈ c →
  (∃ v, is_Some (adj g !! (n, v))) ∧ (∃ u, is_Some (adj g !! (u, n))).
Proof.
  intros [Hw (first & final & Hf & Hl & He)] Hn. split.
  - destruct (decide (n = final)) as [->|Hne]; [by exists first|].
    apply (rev_walk_out g (reverse c)); [done|].
    apply elem_of_reverse in Hn. rewrite <- head_reverse in Hl.
    destruct (reverse c) as [|h t]; [done|]. simpl in *.
    inversion Hl; subst. by apply elem_of_cons in Hn as [->|Hn].
  - destruct (decide (n = first)) as [->|Hne]; [by exists final|].
    apply (rev_walk_in g (reverse c)); [done|by apply elem_of_reverse|].
    rewrite reverse_involutive, Hf. congruence.
Qed.

Lemma analyze_circular (self : DependencyAnalyzer) (pr : project_results) :
  circular_dependencies (analyze_import_relationships self pr).1
    = simple_cycles (dependency_graph (analyze_import_relationships self pr).1).
Proof. by rewrite analyze_unfold. Qed.

End reported.

(** X10. Every cycle in the list of circular dependencies that a run leaves
    is a closed walk of the graph: each of its modules has an edge to the
    next and the last has an edge to the first. It repeats no module, and
    its modules are nodes of the graph. *)
Theorem reported_cycles_are_simple (self : DependencyAnalyzer)
    (pr : project_results) (c : list string) :
  c ∈ circular_dependencies (analyze_import_relationships self pr).1 →
  closed_walk (dependency_graph (analyze_import_relationships self pr).1) c
  ∧ NoDup c
  ∧ ∀ n, n ∈ c →
      n ∈ node_list (dependency_graph (analyze_import_relationships self pr).1).
Proof.
  rewrite analyze_circular. intros Hc.
  split; [by apply simple_cycles_sound|]. by apply simple_cycles_simple.
Qed.

Lemma reported_cycles_are_simple_witness :
  NoDup ["C"; "A"; "B"]
  ∧ closed_walk
      (dependency_graph
         (analyze_import_relationships DependencyAnalyzer_init sample_cycle).1)
      ["C"; "A"; "B"].
Proof.
  assert (["C"; "A"; "B"]
            ∈ circular_dependencies
                (analyze_import_relationships DependencyAnalyzer_init
                   sample_cycle).1) as Hc.
  { vm_compute. repeat constructor. }
  destruct (reported_cycles_are_simple _ _ _ Hc) as (Hw & Hnd & _).
  exact (conj Hnd Hw).
Defined.

(** X11. After a run no orphaned module is on a reported cycle, and every
    module on a reported cycle has an incoming and an outgoing edge. *)
Theorem orphans_are_on_no_cycle (self : DependencyAnalyzer)
    (pr : project_results) (c : list string) (n : string) :
  c ∈ circular_dependencies (analyze_import_relationships self pr).1 →
  n ∈ c →
  (n ∉ orphaned_modules (analyze_import_relationships self pr).1)
  ∧ 0 < in_degree (dependency_graph (analyze_import_relationships self pr).1) n
  ∧ 0 < out_degree (dependency_graph (analyze_import_relationships self pr).1) n.
Proof.
  intros Hc Hn.
  rewrite analyze_circular in Hc. pose proof (simple_cycles_sound _ _ Hc) as Hw.
  destruct (closed_walk_degrees _ _ _ Hw Hn) as [[v [d Hv]] [u [d' Hu]]].
  assert (in_degree (dependency_graph (analyze_import_relationships self pr).1) n
          ≠ 0) as Hi.
  { rewrite in_degree_zero. intros H. by rewrite H in Hu. }
  assert (out_degree (dependency_graph (analyze_import_relationships self pr).1) n
          ≠ 0) as Ho.
  { rewrite out_degree_zero. intros H. by rewrite H in Hv. }
  split; [|lia]. revert Hi. rewrite analyze_unfold. cbn zeta.
  cbn [fst orphaned_modules identify_orphaned_modules
       detect_circular_dependencies dependency_graph].
  rewrite list_elem_of_filter. tauto.
Qed.

Lemma orphans_are_on_no_cycle_witness :
  0 < out_degree
        (dependency_graph
           (analyze_import_relationships DependencyAnalyzer_init sample_cycle).1)
        "D".
Proof.
  refine (proj2 (proj2 (orphans_are_on_no_cycle DependencyAnalyzer_init
                          sample_cycle ["D"] "D" _ _))).
  - vm_compute. repeat constructor.
  - by left.
Defined.

(** ** Every cycle is reported *)

Section complete_cycles.
Implicit Types (g : DiGraph) (s v cur : string) (path c q : list string).

Lemma fwalk_app g l1 l2 :
  fwalk g l1 → fwalk g l2 →
  (∀ a b, last l1 = Some a → head l2 = Some b → is_Some (adj g !! (a, b))) →
  fwalk g (l1 ++ l2).
Proof.
  induction 1 as [|x|x y l He Hw IH]; intros H2 Hc; [done| |].
  - destruct l2 as [|b l2]; [apply fwalk_one|]. simpl.
    apply fwalk_cons; [by apply Hc|done].
  - simpl. apply fwalk_cons; [done|]. apply IH; [done|].
    intros a b Ha Hb. apply Hc; [|done]. by rewrite last_cons_cons.
Qed.

Lemma fwalk_app_inv g l1 l2 :
  fwalk g (l1 ++ l2) →
  fwalk g l1 ∧ fwalk g l2
  ∧ ∀ a b, last l1 = Some a → head l2 = Some b → is_Some (adj g !! (a, b)).
Proof.
  induction l1 as [|x l1 IH]; intros H.
  - split; [apply fwalk_nil|]. split; [done|]. by intros a b.
  - destruct l1 as [|y l1].
    + split; [apply fwalk_one|]. destruct l2 as [|b l2].
      * split; [apply fwalk_nil|]. by intros a b' _.
      * simpl in H. inversion H; subst. split; [done|].
        by intros a b' [= <-] [= <-].
    + simpl in H. inversion H as [| |x' y' l' He Hw]; subst.
      destruct (IH Hw) as (H1 & H2 & Hc). split; [by apply fwalk_cons|].
      split; [done|]. intros a b Ha. apply Hc. by rewrite last_cons_cons in Ha.
Qed.

Lemma rev_walk_fwalk g path : rev_walk g path → fwalk g (reverse path).
Proof.
  induction 1 as [x|y x l He Hw IH]; [apply fwalk_one|].
  rewrite reverse_cons. apply fwalk_app; [done|apply fwalk_one|].
  intros a b Ha [= <-]. rewrite last_reverse in Ha. by inversion Ha; subst.
Qed.

(** [circuits_from] lists the circuit that closes any walk through
    unvisited nodes back to [s]. *)
Lemma circuits_from_complete g s q :
  ∀ fuel unvisited path cur,
    length unvisited < fuel → NoDup q →
    (∀ x, x ∈ q → x ∈ unvisited ∧ x ≠ s) →
    fwalk g (cur :: q) →
    (∀ e, last (cur :: q) = Some e → is_Some (adj g !! (e, s))) →
    q ≠ [] ∨ cur ≠ s →
    reverse path ++ q ∈ circuits_from fuel g s unvisited path cur.
Proof.
  induction q as [|v q IH]; intros fuel unvisited path cur Hf Hnd Hq Hw Hl Hne.
  - destruct fuel as [|fuel]; [lia|]. simpl.
    apply elem_of_flat_map. exists s. split.
    + apply elem_of_successors. by apply Hl.
    + rewrite decide_True by done. destruct Hne as [?|Hne]; [done|].
      rewrite decide_False by done. rewrite app_nil_r. by left.
  - destruct fuel as [|fuel]; [lia|]. simpl.
    inversion Hw as [| |x y l He Hw']; subst.
    destruct (Hq v) as [Hv Hvs]; [by left|].
    apply NoDup_cons in Hnd as [Hvq Hnd].
    apply elem_of_flat_map. exists v. split; [by apply elem_of_successors|].
    rewrite decide_False by done. rewrite decide_True by done.
    replace (reverse path ++ v :: q) with (reverse (v :: path) ++ q)
      by (by rewrite reverse_cons, <- app_assoc).
    apply IH; [|done| |done| |by right].
    + assert (length (filter (λ x, x ≠ v) unvisited) < length unvisited).
      { apply (length_filter_lt _ _ v); [done|]. by intros Hn. }
      lia.
    + intros x Hx. destruct (Hq x) as [Hxu Hxs]; [by right|].
      split; [|done]. apply list_elem_of_filter. split; [|done].
      by intros ->.
    + intros e He'. apply Hl. by rewrite last_cons_cons.
Qed.

Lemma circuits_over_complete g ns :
  NoDup ns →
  ∀ c, NoDup c → 2 ≤ length c → fwalk g c →
    (∃ first final, head c = Some first ∧ last c = Some final
                    ∧ is_Some (adj g !! (final, first))) →
    (∀ x, x ∈ c → x ∈ ns) →
    ∃ l1 l2, c = l1 ++ l2 ∧ l2 ++ l1 ∈ circuits_over g ns.
Proof.
  induction ns as [|s rest IH]; intros Hns c Hnd Hlen Hw Hclose Hsub.
  - destruct c as [|x c]; [simpl in Hlen; lia|].
    assert (x ∈ @nil string) as H by (apply Hsub; by left).
    by apply elem_of_nil in H.
  - apply NoDup_cons in Hns as [Hs Hns]. cbn [circuits_over].
    destruct (decide (s ∈ c)) as [Hin|Hin].
    + apply list_elem_of_split in Hin as (l1 & l2 & ->).
      exists l1, (s :: l2). split; [done|]. apply elem_of_app. left.
      assert (NoDup (s :: (l2 ++ l1))) as Hnd'.
      { eapply NoDup_Permutation_proper; [|exact Hnd].
        rewrite (Permutation_app_comm l1 (s :: l2)). done. }
      apply NoDup_cons in Hnd' as [Hsq Hndq].
      destruct (fwalk_app_inv _ _ _ Hw) as (Hw1 & Hw2 & Hc12).
      destruct Hclose as (first & final & Hf & Hl & He).
      change ((s :: l2) ++ l1) with (reverse [s] ++ (l2 ++ l1)).
      apply circuits_from_complete.
      * lia.
      * done.
      * intros x Hx. assert (x ≠ s) as Hxs by (by intros ->).
        split; [|done]. assert (x ∈ s :: rest) as Hxr.
        { apply Hsub. apply elem_of_app in Hx as [Hx|Hx]; apply elem_of_app;
            [right; by right|by left]. }
        by apply elem_of_cons in Hxr as [->|Hxr].
      * change (s :: l2 ++ l1) with ((s :: l2) ++ l1).
        apply fwalk_app; [done|done|]. intros a b Ha Hb.
        destruct l1 as [|b' l1]; [done|]. simpl in Hb, Hf.
        inversion Hb; inversion Hf; subst.
        rewrite last_app in Hl. rewrite Ha in Hl. by inversion Hl; subst.
      * intros e Hlast. destruct l1 as [|b l1] using rev_ind.
        -- rewrite app_nil_r in Hlast. simpl in Hf. inversion Hf; subst.
           rewrite app_nil_l in Hl. rewrite Hlast in Hl. by inversion Hl; subst.
        -- clear IHl1. rewrite app_assoc, app_comm_cons, last_snoc in Hlast.
           inversion Hlast; subst. apply Hc12; [by rewrite last_snoc|done].
      * left. intros E. apply app_eq_nil in E as [-> ->].
        simpl in Hlen. lia.
    + destruct (IH Hns c) as (l1 & l2 & -> & Hc); [done..| |].
      * intros x Hx. assert (x ∈ s :: rest) as Hxr by (by apply Hsub).
        apply elem_of_cons in Hxr as [->|Hxr]; [by destruct Hin|done].
      * exists l1, l2. split; [done|]. apply elem_of_app. by right.
Qed.

(** Every closed walk of the graph that repeats no node is reported, from
    one of its nodes. *)
Lemma simple_cycles_complete g c :
  NoDup c → closed_walk g c → (∀ x, x ∈ c → x ∈ node_list g) →
  ∃ l1 l2, c = l1 ++ l2 ∧ l2 ++ l1 ∈ simple_cycles g.
Proof.
  intros Hnd [Hw Hclose] Hsub. apply rev_walk_fwalk in Hw.
  rewrite reverse_involutive in Hw. unfold simple_cycles.
  destruct c as [|a [|b c]].
  - by destruct Hclose as (? & ? & ? & _).
  - exists [], [a]. split; [done|]. apply elem_of_app. left.
    destruct Hclose as (first & final & [= <-] & [= <-] & He).
    unfold self_loop_cycles. apply list_elem_of_fmap. exists a.
    split; [done|]. apply list_elem_of_filter. split; [done|].
    apply Hsub. by left.
  - destruct (circuits_over_complete g (node_list g)
                (NoDup_fst_map_to_list _) (a :: b :: c)) as (l1 & l2 & E & H);
      [done|simpl; lia|done|done|done|].
    exists l1, l2. split; [done|]. apply elem_of_app. by right.
Qed.

End complete_cycles.

(** X12. After a run of an analyzer in a state it can reach, every cycle of
    the graph is in the list of circular dependencies, starting from one of
    its modules: for every closed walk that repeats no module, a rotation
    of it is in the list. *)
Theorem every_cycle_is_reported (self : DependencyAnalyzer)
    (pr : project_results) (c : list string) :
  reachable self → NoDup c →
  closed_walk (dependency_graph (analyze_import_relationships self pr).1) c →
  ∃ l1 l2,
    c = l1 ++ l2
    ∧ l2 ++ l1 ∈ circular_dependencies (analyze_import_relationships self pr).1.
Proof.
  intros Hr Hnd Hw. rewrite analyze_circular.
  apply simple_cycles_complete; [done|done|].
  intros x Hx. destruct (closed_walk_degrees _ _ _ Hw Hx) as [[v [d Hv]] _].
  apply elem_of_node_list.
  by destruct (analyze_closed self pr (reachable_closed _ Hr) _ _ _ Hv).
Qed.

Lemma every_cycle_is_reported_witness :
  ∃ l1 l2,
    ["A"; "B"; "C"] = l1 ++ l2
    ∧ l2 ++ l1 ∈ circular_dependencies
        (analyze_import_relationships DependencyAnalyzer_init sample_cycle).1.
Proof.
  apply (every_cycle_is_reported DependencyAnalyzer_init sample_cycle).
  - apply reachable_init.
  - apply (bool_decide_unpack _). vm_compute. exact I.
  - split.
    + change (reverse ["A"; "B"; "C"]) with ["C"; "B"; "A"].
      apply rev_walk_step; [apply (bool_decide_unpack _); vm_compute; exact I|].
      apply rev_walk_step; [apply (bool_decide_unpack _); vm_compute; exact I|].
      apply rev_walk_one.
    + exists "A", "C". split; [reflexivity|]. split; [reflexivity|].
      apply (bool_decide_unpack _). vm_compute. exact I.
Defined.

(** * Further properties of the parser *)

(** ** What the extractor records, exactly *)

Section extraction.
Implicit Types (n root : ast_node) (todo l : list ast_node) (acc : extracted).

(** [ast.walk] yields nodes of the tree only. *)
Lemma walk_queue_sound fuel todo n :
  n ∈ walk_queue fuel todo → ∃ r, r ∈ todo ∧ in_tree n r.
Proof.
  revert todo. induction fuel as [|fuel IH]; intros todo Hn.
  - by apply elem_of_nil in Hn.
  - destruct todo as [|node rest]; [by apply elem_of_nil in Hn|].
    simpl in Hn. apply elem_of_cons in Hn as [->|Hn].
    + exists node. split; [by left|apply in_tree_root].
    + destruct (IH _ Hn) as (r & Hr & Ht).
      apply elem_of_app in Hr as [Hr|Hr].
      * exists r. split; [by right|done].
      * exists node. split; [by left|]. by eapply in_tree_child.
Qed.

Lemma walk_sound root n : n ∈ walk root → in_tree n root.
Proof.
  intros (r & Hr & Ht)%walk_queue_sound.
  by apply list_elem_of_singleton in Hr as ->.
Qed.

Lemma alias_eta (a : alias) : Alias (alias_name a) (alias_asname a) = a.
Proof. by destruct a. Qed.

(** What the four lists hold after the loop comes from the nodes
    visited. *)
Lemma foldl_visit_sound l acc :
  (∀ name ln e, DefInfo name ln e ∈ x_functions (foldl visit acc l) →
     DefInfo name ln e ∈ x_functions acc
     ∨ ∃ c, FunctionDef name ln e c ∈ l)
  ∧ (∀ name ln e, DefInfo name ln e ∈ x_classes (foldl visit acc l) →
     DefInfo name ln e ∈ x_classes acc
     ∨ ∃ c, ClassDef name ln e c ∈ l)
  ∧ (∀ m al ln,
       StandardImport m al ln ∈ x_standard_imports (foldl visit acc l) →
       StandardImport m al ln ∈ x_standard_imports acc
       ∨ ∃ names, Import names ln ∈ l ∧ Alias m al ∈ names)
  ∧ (∀ mo nm al ln,
       FromImport mo nm al ln ∈ x_from_imports (foldl visit acc l) →
       FromImport mo nm al ln ∈ x_from_imports acc
       ∨ ∃ names level, ImportFrom mo names level ln ∈ l ∧ Alias nm al ∈ names).
Proof.
  revert acc. induction l as [|n l IH]; intros acc.
  - simpl. by repeat split; intros; left.
  - destruct (IH (visit acc n)) as (Hf & Hc & Hs & Hfi). cbn [foldl].
    split; [|split; [|split]].
    + intros name ln e [H|[c H]]%Hf; [|right; exists c; by right].
      destruct n; simpl in H; try (by left).
      apply elem_of_app in H as [H|H]; [by left|].
      apply list_elem_of_singleton in H. inversion H; subst.
      right. eexists. by left.
    + intros name ln e [H|[c H]]%Hc; [|right; exists c; by right].
      destruct n; simpl in H; try (by left).
      apply elem_of_app in H as [H|H]; [by left|].
      apply list_elem_of_singleton in H. inversion H; subst.
      right. eexists. by left.
    + intros m al ln [H|(names & H & Ha)]%Hs;
        [|right; exists names; split; [by right|done]].
      destruct n; simpl in H; try (by left).
      apply elem_of_app in H as [H|H]; [by left|].
      apply list_elem_of_fmap in H as (a & E & Ha). inversion E; subst.
      right. eexists. split; [by left|]. by rewrite alias_eta.
    + intros mo nm al ln [H|(names & level & H & Ha)]%Hfi;
        [|right; exists names, level; split; [by right|done]].
      destruct n; simpl in H; try (by left).
      apply elem_of_app in H as [H|H]; [by left|].
      apply list_elem_of_fmap in H as (a & E & Ha). inversion E; subst.
      right. eexists _, _. split; [by left|]. by rewrite alias_eta.
Qed.

End extraction.

(** X13. For a file that parses, the record has the line count of the text
    and the text itself, and its four flat lists hold exactly what the tree
    holds: an entry with a name and lines is in [functions] exactly when a
    [FunctionDef] node with them is in the tree, at any depth; likewise
    [classes] and [ClassDef]; an entry is in [standard_imports] exactly
    when an [Import] node on that line has that name and alias, and in
    [from_imports] exactly when an [ImportFrom] node has them. Nothing is
    recorded that is not in the tree. *)
Theorem extraction_is_exact (code : string) (root : ast_node) :
  ∃ fs cs si fi,
    parse_python_file (Source code (inr root))
      = ParseOk fs cs (Imports si fi) (length (splitlines code)) code
    ∧ (∀ name ln e,
         DefInfo name ln e ∈ fs ↔ ∃ c, in_tree (FunctionDef name ln e c) root)
    ∧ (∀ name ln e,
         DefInfo name ln e ∈ cs ↔ ∃ c, in_tree (ClassDef name ln e c) root)
    ∧ (∀ m al ln,
         StandardImport m al ln ∈ si
         ↔ ∃ names, in_tree (Import names ln) root ∧ Alias m al ∈ names)
    ∧ (∀ mo nm al ln,
         FromImport mo nm al ln ∈ fi
         ↔ ∃ names level,
             in_tree (ImportFrom mo names level ln) root ∧ Alias nm al ∈ names).
Proof.
  unfold parse_python_file.
  pose proof (foldl_visit_sound (walk root) (Extracted [] [] [] []))
    as (Hf & Hc & Hs & Hfi).
  pose proof (λ n Ht, foldl_visit_records n (walk root) (Extracted [] [] [] [])
                        (walk_complete root n Ht)) as Hrec.
  destruct (foldl visit (Extracted [] [] [] []) (walk root)) as [fs cs si fi].
  simpl in *. exists fs, cs, si, fi. split; [done|].
  split; [|split; [|split]].
  - intros name ln e. split.
    + intros [H|[c H]]%Hf; [by apply elem_of_nil in H|].
      exists c. by apply walk_sound.
    + intros [c Ht]. apply (Hrec _ Ht).
  - intros name ln e. split.
    + intros [H|[c H]]%Hc; [by apply elem_of_nil in H|].
      exists c. by apply walk_sound.
    + intros [c Ht]. apply (Hrec _ Ht).
  - intros m al ln. split.
    + intros [H|(names & H & Ha)]%Hs; [by apply elem_of_nil in H|].
      exists names. split; [by apply walk_sound|done].
    + intros (names & Ht & Ha). apply (Hrec _ Ht (Alias m al) Ha).
  - intros mo nm al ln. split.
    + intros [H|(names & level & H & Ha)]%Hfi; [by apply elem_of_nil in H|].
      exists names, level. split; [by apply walk_sound|done].
    + intros (names & level & Ht & Ha). apply (Hrec _ Ht (Alias nm al) Ha).
Qed.

(** ** Each node once *)

Section once.
Implicit Types (n root : ast_node) (todo l : list ast_node) (acc : extracted).

Lemma tree_nodes_children n :
  tree_nodes n = n :: (iter_child_nodes n ≫= tree_nodes).
Proof.
  assert (∀ c : list ast_node,
    (fix forest (l : list ast_node) : list ast_node :=
       match l with [] => [] | x :: l' => tree_nodes x ++ forest l' end) c
    = c ≫= tree_nodes) as Hf.
  { induction c as [|x c IH]; [done|]. by rewrite bind_cons, <- IH. }
  assert (∀ names : list alias,
    (AliasNode <$> names) ≫= tree_nodes = AliasNode <$> names) as Ha.
  { induction names as [|a names IH]; [done|].
    rewrite fmap_cons, bind_cons, IH. done. }
  destruct n; simpl; rewrite ?Hf, ?Ha; done.
Qed.

(** The loop of [ast.walk] yields the nodes under its queue, each once. *)
Lemma walk_queue_nodes fuel todo :
  queue_size todo ≤ fuel → walk_queue fuel todo ≡ₚ todo ≫= tree_nodes.
Proof.
  revert todo. induction fuel as [|fuel IH]; intros todo Hsz.
  - destruct todo as [|x todo]; [done|].
    pose proof (queue_size_pos x todo). lia.
  - destruct todo as [|node rest]; [done|].
    assert (queue_size (rest ++ iter_child_nodes node) ≤ fuel) as Hsz'.
    { rewrite queue_size_app. unfold queue_size in *. simpl in Hsz.
      rewrite node_size_children in Hsz. unfold queue_size in Hsz. lia. }
    cbn [walk_queue].
    rewrite (IH _ Hsz'), bind_cons, bind_app, tree_nodes_children.
    rewrite <- app_comm_cons. apply Permutation_skip, Permutation_app_comm.
Qed.

Lemma walk_queue_length fuel todo :
  queue_size todo ≤ fuel → length (walk_queue fuel todo) = queue_size todo.
Proof.
  revert todo. induction fuel as [|fuel IH]; intros todo Hsz.
  - destruct todo as [|x todo]; [done|].
    pose proof (queue_size_pos x todo). lia.
  - destruct todo as [|node rest]; [done|].
    assert (queue_size (node :: rest)
            = S (queue_size (rest ++ iter_child_nodes node))) as E.
    { rewrite queue_size_app. unfold queue_size. simpl.
      rewrite node_size_children. unfold queue_size. lia. }
    cbn [walk_queue length]. rewrite IH; lia.
Qed.

Lemma walk_nodes root : walk root ≡ₚ tree_nodes root.
Proof.
  unfold walk. rewrite walk_queue_nodes.
  - rewrite bind_cons. simpl. by rewrite app_nil_r.
  - unfold queue_size. simpl. lia.
Qed.

(** One entry is appended for each function definition visited, and so
    on. *)
Lemma foldl_visit_lengths l acc :
  length (x_functions (foldl visit acc l))
    = length (x_functions acc)
      + length (filter (λ n, is_FunctionDef n = true) l)
  ∧ length (x_classes (foldl visit acc l))
    = length (x_classes acc) + length (filter (λ n, is_ClassDef n = true) l)
  ∧ length (x_standard_imports (foldl visit acc l))
    = length (x_standard_imports acc) + sum_list_with import_names l
  ∧ length (x_from_imports (foldl visit acc l))
    = length (x_from_imports acc) + sum_list_with from_import_names l.
Proof.
  revert acc. induction l as [|n l IH]; intros acc.
  - simpl. repeat split; lia.
  - destruct (IH (visit acc n)) as (Hf & Hc & Hs & Hfi). cbn [foldl].
    rewrite Hf, Hc, Hs, Hfi, !filter_cons. clear.
    destruct n; simpl; rewrite ?length_app, ?length_fmap; simpl;
      repeat split; lia.
Qed.

End once.

(** X14. [ast.walk] yields every node of the tree exactly once, so that the
    record of a file that parses has one entry in [functions] for each
    [FunctionDef] node of the tree, one in [classes] for each [ClassDef]
    node, and one import entry for each name of each [Import] and
    [ImportFrom] node. *)
Theorem one_entry_per_definition (code : string) (root : ast_node) :
  walk root ≡ₚ tree_nodes root
  ∧ length (walk root) = node_size root
  ∧ ∃ fs cs si fi n,
      parse_python_file (Source code (inr root))
        = ParseOk fs cs (Imports si fi) n code
      ∧ length fs
        = length (filter (λ n, is_FunctionDef n = true) (tree_nodes root))
      ∧ length cs
        = length (filter (λ n, is_ClassDef n = true) (tree_nodes root))
      ∧ length si = sum_list_with import_names (tree_nodes root)
      ∧ length fi = sum_list_with from_import_names (tree_nodes root).
Proof.
  split; [apply walk_nodes|]. split.
  - unfold walk. rewrite walk_queue_length; unfold queue_size; simpl; lia.
  - unfold parse_python_file.
    pose proof (foldl_visit_lengths (walk root) (Extracted [] [] [] []))
      as (Hf & Hc & Hs & Hfi).
    destruct (foldl visit (Extracted [] [] [] []) (walk root)) as [fs cs si fi].
    simpl in *. exists fs, cs, si, fi, (length (splitlines code)).
    rewrite walk_nodes in Hf, Hc, Hs, Hfi. by repeat split.
Qed.

(** ** The files that [parse_project] accounts for *)

Section project.
Implicit Types (top dirpath file p : string) (n : fs_node)
  (entries : list (string * fs_node)) (c : file_content).

(** Induction on directory trees, with the hypothesis for every entry. *)
Lemma fs_node_induction (P : fs_node → Prop) :
  (∀ c, P (File c)) →
  (∀ b entries, Forall (λ e, P e.2) entries → P (Dir b entries)) →
  ∀ n, P n.
Proof.
  intros Hf Hd. fix IH 1. intros [c|b entries]; [apply Hf|]. apply Hd.
  induction entries as [|[name child] entries IHe]; constructor;
    [apply IH|apply IHe].
Qed.

Lemma os_walk_listable top entries :
  os_walk top (Dir true entries)
    = (top, dirs entries, nondirs entries)
      :: (entries ≫= λ e, if is_dir e.2 then os_walk (PathLib.join top e.1) e.2
                          else []).
Proof.
  cbn [os_walk]. f_equal.
  induction entries as [|[name child] entries IH]; [done|].
  rewrite bind_cons, <- IH. done.
Qed.

Lemma elem_of_nondirs entries file c :
  (file, c) ∈ nondirs entries ↔ (file, File c) ∈ entries.
Proof.
  unfold nondirs. rewrite list_elem_of_omap. split.
  - intros ([name [c'|b es]] & Hin & H); simpl in H; [|done].
    by inversion H; subst.
  - intros Hin. by exists (file, File c).
Qed.

(** The steps of [os.walk] list exactly the files that can be reached. *)
Lemma os_walk_files n : ∀ top dirpath file c,
  (∃ step, step ∈ os_walk top n ∧ step.1.1 = dirpath ∧ (file, c) ∈ step.2)
  ↔ file_at top n dirpath file c.
Proof.
  induction n as [c'|b entries IH] using fs_node_induction;
    intros top dirpath file c.
  - split; [intros (step & H & _); by apply elem_of_nil in H|].
    intros H. inversion H.
  - destruct b.
    2:{ split; [intros (step & H & _); by apply elem_of_nil in H|].
        intros H. inversion H. }
    rewrite os_walk_listable. split.
    + intros (step & Hstep & <- & Hc).
      apply elem_of_cons in Hstep as [->|Hstep].
      * simpl in *. apply file_here. by apply elem_of_nondirs.
      * apply list_elem_of_bind in Hstep as ([name child] & Hstep & Hin).
        simpl in Hstep. destruct (is_dir child) eqn:Hd;
          [|by apply elem_of_nil in Hstep].
        eapply file_below; [exact Hin|done|].
        rewrite Forall_forall in IH. apply (IH (name, child) Hin).
        by exists step.
    + intros H. inversion H as [? ? ? ? Hin|? ? name child ? ? ? Hin Hd Hf]; subst.
      * exists (dirpath, dirs entries, nondirs entries).
        split; [by left|]. split; [done|]. by apply elem_of_nondirs.
      * rewrite Forall_forall in IH.
        apply (IH (name, child) Hin) in Hf as (step & Hstep & E & Hc).
        exists step. split; [|done]. right.
        apply list_elem_of_bind. exists (name, child). simpl.
        by rewrite Hd.
Qed.

Lemma elem_of_walked_files root_dir at_root dirpath file c :
  (dirpath, (file, c)) ∈ walked_files root_dir at_root
  ↔ ∃ n, at_root = Some n ∧ file_at root_dir n dirpath file c.
Proof.
  unfold walked_files. rewrite list_elem_of_bind.
  destruct at_root as [n|]; simpl.
  - setoid_rewrite list_elem_of_fmap. split.
    + intros (step & ([f c'] & E & Hc) & Hstep). inversion E; subst.
      exists n. split; [done|]. apply os_walk_files. by exists step.
    + intros (n' & [= <-] & (step & Hstep & <- & Hc)%os_walk_files).
      exists step. split; [|done]. by exists (file, c).
  - split; [intros (step & _ & H); by apply elem_of_nil in H|].
    by intros (n & ? & _).
Qed.

(** The two nested loops are one loop over the files met. *)
Lemma parse_project_fold root_dir at_root :
  (parse_project root_dir at_root).1
    = let results :=
        foldl (λ results de, parse_entry de.1 results de.2) ([], [])
          (walked_files root_dir at_root) in
      Results results.1 results.2.
Proof.
  unfold parse_project, walked_files. simpl. f_equal;
    f_equal; generalize (@nil (string * parse_data), @nil string);
    induction (os_walk_root root_dir at_root) as [|step steps IH];
    intros acc; try done;
    rewrite bind_cons, foldl_app, foldl_fmap; simpl; apply IH.
Qed.

Lemma dict_set_keys {V} k (v : V) (d : list (string * V)) p :
  p ∈ (dict_set k v d).*1 ↔ p = k ∨ p ∈ d.*1.
Proof.
  induction d as [|[k' v'] d IH]; simpl.
  - rewrite list_elem_of_singleton, elem_of_nil. tauto.
  - case_decide; subst; simpl; rewrite !elem_of_cons, ?IH; tauto.
Qed.

Lemma dict_set_NoDup {V} k (v : V) (d : list (string * V)) :
  NoDup d.*1 → NoDup (dict_set k v d).*1.
Proof.
  induction d as [|[k' v'] d IH]; simpl; intros Hnd.
  - apply NoDup_singleton.
  - apply NoDup_cons in Hnd as [Hk Hnd]. case_decide; subst; simpl.
    + by apply NoDup_cons.
    + apply NoDup_cons. split; [|by apply IH].
      rewrite dict_set_keys. naive_solver.
Qed.

Lemma dict_set_entries {V} k (v : V) (d : list (string * V)) p x :
  (p, x) ∈ dict_set k v d → (p = k ∧ x = v) ∨ (p, x) ∈ d.
Proof.
  induction d as [|[k' v'] d IH]; simpl.
  - intros [= -> ->]%list_elem_of_singleton. by left.
  - case_decide; subst; rewrite !elem_of_cons; naive_solver.
Qed.

Lemma parse_entry_supported dirpath res file c :
  supported file →
  parse_entry dirpath res (file, c)
    = (dict_set (PathLib.join dirpath file) (parse_python_file c) res.1, res.2).
Proof. intros H. unfold parse_entry. by rewrite decide_True. Qed.

Lemma parse_entry_unsupported dirpath res file c :
  ¬ supported file →
  parse_entry dirpath res (file, c)
    = (res.1, res.2 ++ [PathLib.join dirpath file]).
Proof. intros H. unfold parse_entry. by rewrite decide_False. Qed.

Lemma path_met_nil Q p : ¬ path_met Q [] p.
Proof. intros (d & f & c & H & _). by apply elem_of_nil in H. Qed.

Lemma path_met_cons Q d f c L p :
  path_met Q ((d, (f, c)) :: L) p
  ↔ (Q f ∧ p = PathLib.join d f) ∨ path_met Q L p.
Proof.
  unfold path_met. split.
  - intros (d' & f' & c' & Hin & HQ & Hp).
    apply elem_of_cons in Hin as [E|Hin].
    + inversion E; subst. by left.
    + right. by exists d', f', c'.
  - intros [[HQ Hp]|(d' & f' & c' & Hin & HQ & Hp)].
    + exists d, f, c. split; [by left|done].
    + exists d', f', c'. split; [by right|done].
Qed.

Lemma record_met_nil p x : ¬ record_met [] p x.
Proof. intros (d & f & c & H & _). by apply elem_of_nil in H. Qed.

Lemma record_met_cons d f c L p x :
  record_met ((d, (f, c)) :: L) p x
  ↔ (supported f ∧ p = PathLib.join d f ∧ x = parse_python_file c)
    ∨ record_met L p x.
Proof.
  unfold record_met. split.
  - intros (d' & f' & c' & Hin & HQ & Hp).
    apply elem_of_cons in Hin as [E|Hin].
    + inversion E; subst. by left.
    + right. by exists d', f', c'.
  - intros [[HQ Hp]|(d' & f' & c' & Hin & HQ & Hp)].
    + exists d, f, c. split; [by left|done].
    + exists d', f', c'. split; [by right|done].
Qed.

(** The keys of [parsed_files] after the loop over the files. *)
Lemma parse_entries_keys L : ∀ res p,
  p ∈ (foldl (λ results de, parse_entry de.1 results de.2) res L).1.*1
  ↔ p ∈ res.1.*1 ∨ path_met supported L p.
Proof.
  induction L as [|[d [f c]] L IH]; intros res p.
  - simpl. pose proof (path_met_nil supported p). tauto.
  - cbn [foldl fst snd]. rewrite IH, path_met_cons.
    destruct (decide (supported f)) as [Hs|Hs].
    + rewrite (parse_entry_supported _ _ _ _ Hs). cbn [fst].
      rewrite dict_set_keys. tauto.
    + rewrite (parse_entry_unsupported _ _ _ _ Hs). cbn [fst]. tauto.
Qed.

(** The list of unsupported files after the loop. *)
Lemma parse_entries_unsupported L : ∀ res p,
  p ∈ (foldl (λ results de, parse_entry de.1 results de.2) res L).2
  ↔ p ∈ res.2 ∨ path_met (λ f, ¬ supported f) L p.
Proof.
  induction L as [|[d [f c]] L IH]; intros res p.
  - simpl. pose proof (path_met_nil (λ f, ¬ supported f) p). tauto.
  - cbn [foldl fst snd]. rewrite IH, path_met_cons.
    destruct (decide (supported f)) as [Hs|Hs].
    + rewrite (parse_entry_supported _ _ _ _ Hs). cbn [snd]. tauto.
    + rewrite (parse_entry_unsupported _ _ _ _ Hs). cbn [snd].
      rewrite elem_of_app, list_elem_of_singleton. tauto.
Qed.

(** No key is entered twice. *)
Lemma parse_entries_NoDup L : ∀ res,
  NoDup res.1.*1 →
  NoDup (foldl (λ results de, parse_entry de.1 results de.2) res L).1.*1.
Proof.
  induction L as [|[d [f c]] L IH]; intros res Hnd; [done|].
  cbn [foldl fst snd]. apply IH.
  destruct (decide (supported f)) as [Hs|Hs].
  - rewrite (parse_entry_supported _ _ _ _ Hs). cbn [fst].
    by apply dict_set_NoDup.
  - by rewrite (parse_entry_unsupported _ _ _ _ Hs).
Qed.

(** A record under a key is the record of a file of that path. *)
Lemma parse_entries_records L : ∀ res p x,
  (p, x) ∈ (foldl (λ results de, parse_entry de.1 results de.2) res L).1 →
  (p, x) ∈ res.1 ∨ record_met L p x.
Proof.
  induction L as [|[d [f c]] L IH]; intros res p x H.
  - by left.
  - cbn [foldl fst snd] in H. apply IH in H. rewrite record_met_cons.
    destruct (decide (supported f)) as [Hs|Hs].
    + rewrite (parse_entry_supported _ _ _ _ Hs) in H. cbn [fst] in H.
      destruct H as [H|H]; [|tauto].
      apply dict_set_entries in H. tauto.
    + rewrite (parse_entry_unsupported _ _ _ _ Hs) in H. cbn [fst] in H. tauto.
Qed.

Lemma path_met_walked Q root_dir at_root p :
  path_met Q (walked_files root_dir at_root) p
  ↔ ∃ n dirpath file c,
      at_root = Some n ∧ file_at root_dir n dirpath file c
      ∧ Q file ∧ p = PathLib.join dirpath file.
Proof.
  unfold path_met. split.
  - intros (d & f & c & H & HQ & Hp).
    apply elem_of_walked_files in H as (n & Hn & H). by exists n, d, f, c.
  - intros (n & d & f & c & Hn & H & HQ & Hp). exists d, f, c.
    split; [|done]. apply elem_of_walked_files. by exists n.
Qed.

End project.

(** X15. [parse_project] accounts for every file that [os.walk] reaches and
    for nothing else: the keys of [parsed_files] are exactly the paths of
    the files with a supported extension (compared in lower case) in the
    root directory and in the directories below it that can be listed; the
    entries of [unsupported_files] are exactly the paths of the other files
    there; no key is repeated; and the record under a key is what
    [_parse_python_file] returns for a file of that path, a failure record
    when the file cannot be read or parsed. *)
Theorem parse_project_accounts_for_files (root_dir : string)
    (at_root : option fs_node) :
  ∃ parsed_files unsupported_files,
    parse_project root_dir at_root
      = (Results parsed_files unsupported_files,
         "✅ All supported files parsed")
    ∧ NoDup parsed_files.*1
    ∧ (∀ p, p ∈ parsed_files.*1 ↔
         ∃ n dirpath file c,
           at_root = Some n ∧ file_at root_dir n dirpath file c
           ∧ supported file ∧ p = PathLib.join dirpath file)
    ∧ (∀ p, p ∈ unsupported_files ↔
         ∃ n dirpath file c,
           at_root = Some n ∧ file_at root_dir n dirpath file c
           ∧ ¬ supported file ∧ p = PathLib.join dirpath file)
    ∧ (∀ p x, (p, x) ∈ parsed_files →
         ∃ n dirpath file c,
           at_root = Some n ∧ file_at root_dir n dirpath file c
           ∧ supported file ∧ p = PathLib.join dirpath file
           ∧ x = parse_python_file c).
Proof.
  pose proof (parse_project_fold root_dir at_root) as Hfold.
  pose proof (parse_entries_keys (walked_files root_dir at_root) ([], [])) as Hk.
  pose proof (parse_entries_unsupported (walked_files root_dir at_root) ([], []))
    as Hu.
  pose proof (parse_entries_NoDup (walked_files root_dir at_root) ([], [])) as Hnd.
  pose proof (parse_entries_records (walked_files root_dir at_root) ([], []))
    as Hv.
  cbn zeta in Hfold.
  destruct (foldl _ ([], []) (walked_files root_dir at_root)) as [pf us].
  cbn [fst snd] in *. exists pf, us. split.
  { unfold parse_project in *. cbn [fst] in Hfold. by rewrite Hfold. }
  split; [apply Hnd, NoDup_nil_2|]. split; [|split].
  - intros p. rewrite Hk, path_met_walked. split; [|by right].
    intros [H|H]; [by apply elem_of_nil in H|done].
  - intros p. rewrite Hu, path_met_walked. split; [|by right].
    intros [H|H]; [by apply elem_of_nil in H|done].
  - intros p x [H|(d & f & c & H & Hs & Hp & Hx)]%Hv;
      [by apply elem_of_nil in H|].
    apply elem_of_walked_files in H as (n & Hn & H). by exists n, d, f, c.
Qed.

(** ** The line count *)

Section lines.
Implicit Types (s cur : string).

Lemma string_app_cons c s t : String c s +:+ t = String c (s +:+ t).
Proof. done. Qed.

Lemma string_app_nil t : "" +:+ t = t.
Proof. done. Qed.

Lemma app_snoc_string cur c s :
  (cur +:+ String c EmptyString) +:+ s = cur +:+ String c s.
Proof.
  induction cur as [|a cur IH]; [done|]. by rewrite !string_app_cons, IH.
Qed.

Lemma app_snoc_nonempty cur c : cur +:+ String c EmptyString ≠ "".
Proof. by destruct cur. Qed.

(** A line being read is never lost. *)
Lemma splitlines_from_nonempty s cur :
  cur ≠ "" → splitlines_from cur s ≠ [].
Proof.
  revert cur. induction s as [|c s IH]; intros cur Hc; simpl.
  - by rewrite decide_False.
  - destruct (is_linebreak c); [done|]. apply IH, app_snoc_nonempty.
Qed.

(** There are no more lines than characters, counting the line being
    read. *)
Lemma splitlines_from_length n : ∀ s cur,
  String.length s ≤ n →
  length (splitlines_from cur s)
  ≤ String.length s + (if decide (cur = "") then 0 else 1).
Proof.
  induction n as [|n IH]; intros s cur Hn.
  - destruct s; simpl in *; [|lia]. case_decide; simpl; lia.
  - destruct s as [|c s]; simpl in *; [case_decide; simpl; lia|].
    destruct (is_linebreak c).
    + assert (∀ t, String.length t ≤ n →
                length (splitlines_from "" t) ≤ String.length t) as Hrest.
      { intros t Ht. pose proof (IH t "" Ht) as H.
        rewrite decide_True in H by done. lia. }
      simpl. destruct s as [|c' s]; simpl in *.
      * case_decide; simpl; lia.
      * destruct ((nat_of_ascii c =? 13) && (nat_of_ascii c' =? 10)).
        -- pose proof (Hrest s ltac:(lia)). case_decide; lia.
        -- pose proof (Hrest (String c' s) ltac:(simpl; lia)) as H.
           simpl in H. case_decide; lia.
    + pose proof (IH s (cur +:+ String c EmptyString) ltac:(lia)) as H.
      rewrite decide_False in H by apply app_snoc_nonempty.
      case_decide; lia.
Qed.

End lines.

(** X16. The line count of a file that parses is zero exactly when its text
    is empty, and it is at most the number of characters of the text. *)
Theorem source_line_count (code : string) (root : ast_node) :
  ∃ fs cs imports n,
    parse_python_file (Source code (inr root))
      = ParseOk fs cs imports n code
    ∧ (n = 0 ↔ code = "")
    ∧ n ≤ String.length code.
Proof.
  unfold parse_python_file. eexists _, _, _, _. split; [done|]. split.
  - unfold splitlines. destruct code as [|c code]; [done|]. split; [|done].
    intros H. exfalso. simpl in H. destruct (is_linebreak c); [done|].
    apply length_zero_iff_nil in H.
    by apply (splitlines_from_nonempty code (String c "")) in H.
  - pose proof (splitlines_from_length (String.length code) code "" (le_n _))
      as H.
    rewrite decide_True in H by done. unfold splitlines. lia.
Qed.

(** ** The stem of a file path *)

Section stems.
Implicit Types (s t cur dir name ext : string) (sep c : ascii).

Lemma string_app_nil_r s : s +:+ "" = s.
Proof. induction s as [|a s IH]; [done|]. by rewrite string_app_cons, IH. Qed.

Lemma split_on_no_sep sep t : ∀ cur,
  has_char sep t = false → PathLib.split_on sep cur t = [cur +:+ t].
Proof.
  induction t as [|c t IH]; intros cur H; simpl in *.
  - by rewrite string_app_nil_r.
  - apply orb_false_iff in H as [Hc Ht]. rewrite Hc, IH by done.
    by rewrite app_snoc_string.
Qed.

Lemma split_on_after_sep sep s t : ∀ cur,
  has_char sep t = false →
  ∃ l, PathLib.split_on sep cur (s +:+ String sep t) = l ++ [t].
Proof.
  induction s as [|c s IH]; intros cur Ht; simpl.
  - rewrite Ascii.eqb_refl, split_on_no_sep by done. by exists [cur].
  - destruct (Ascii.eqb c sep).
    + destruct (IH "" Ht) as [l ->]. by exists (cur :: l).
    + apply IH, Ht.
Qed.

Lemma split_on_ends_with_sep sep s t : ∀ cur,
  last (list_ascii_of_string s) = Some sep → has_char sep t = false →
  ∃ l, PathLib.split_on sep cur (s +:+ t) = l ++ [t].
Proof.
  induction s as [|c s IH]; intros cur Hl Ht; [done|].
  destruct s as [|c' s].
  - simpl in Hl. inversion Hl; subst. simpl.
    rewrite Ascii.eqb_refl, split_on_no_sep by done. by exists [cur].
  - change (list_ascii_of_string (String c (String c' s)))
      with (c :: list_ascii_of_string (String c' s)) in Hl.
    change (list_ascii_of_string (String c' s))
      with (c' :: list_ascii_of_string s) in Hl.
    rewrite last_cons_cons in Hl.
    change (String c (String c' s) +:+ t) with (String c (String c' s +:+ t)).
    cbn [PathLib.split_on]. destruct (Ascii.eqb c sep).
    + destruct (IH "" Hl Ht) as [l ->]. by exists (cur :: l).
    + apply IH; done.
Qed.

(** The last component of a joined path is the file name. *)
Lemma split_on_join dir file :
  has_char "/" file = false →
  ∃ l, PathLib.split_on "/" "" (PathLib.join dir file) = l ++ [file].
Proof.
  intros Hf. unfold PathLib.join.
  destruct (last (list_ascii_of_string dir)) as [c|] eqn:E.
  - destruct (Ascii.eqb c "/") eqn:Ec.
    + apply Ascii.eqb_eq in Ec as ->. by apply split_on_ends_with_sep.
    + change (dir +:+ "/" +:+ file) with (dir +:+ String "/" file).
      by apply split_on_after_sep.
  - apply last_None in E. destruct dir; [|done].
    rewrite split_on_no_sep by done. by exists [].
Qed.

Lemma rfind_dot_none t i : has_char "." t = false → PathLib.rfind_dot t i = None.
Proof.
  revert i. induction t as [|c t IH]; intros i H; simpl in *; [done|].
  apply orb_false_iff in H as [Hc Ht]. by rewrite IH, Hc.
Qed.

Lemma rfind_dot_last_suffix name ext i :
  has_char "." ext = false →
  PathLib.rfind_dot (name +:+ String "." ext) i = Some (i + String.length name).
Proof.
  intros He. revert i. induction name as [|c name IH]; intros i; simpl.
  - rewrite rfind_dot_none by done. simpl. f_equal. lia.
  - rewrite IH. f_equal. lia.
Qed.

Lemma substring_prefix name t :
  substring 0 (String.length name) (name +:+ t) = name.
Proof.
  induction name as [|c name IH]; simpl; [by destruct t|]. by rewrite IH.
Qed.

Lemma string_length_app s t :
  String.length (s +:+ t) = String.length s + String.length t.
Proof. induction s as [|c s IH]; simpl; [done|]. by rewrite IH. Qed.

Lemma has_char_app c s t :
  has_char c (s +:+ t) = has_char c s || has_char c t.
Proof.
  induction s as [|a s IH]; simpl; [done|]. by rewrite IH, orb_assoc.
Qed.

End stems.

(** X17. The module identifier of a file is its name without the last
    suffix, whatever the directory: for a file name [name.ext], where
    [name] is not empty and has no separator and [ext] is not empty and has
    neither a dot nor a separator, the stem of the path that [os.path.join]
    builds from any directory path and the file name is [name]. Dots
    inside [name] stay. *)
Theorem stem_of_joined_path (dir name ext : string) :
  name ≠ "" → ext ≠ "" →
  has_char "/" name = false → has_char "/" ext = false →
  has_char "." ext = false →
  PathLib.stem (PathLib.join dir (name +:+ String "." ext)) = name.
Proof.
  intros Hn He Hsn Hse Hde.
  assert (has_char "/" (name +:+ String "." ext) = false) as Hsf.
  { rewrite has_char_app. simpl. by rewrite Hsn, Hse. }
  assert (String.length (name +:+ String "." ext)
          = String.length name + S (String.length ext)) as Hlen
    by (by rewrite string_length_app).
  assert (0 < String.length name) as Hln by (destruct name; [done|simpl; lia]).
  assert (0 < String.length ext) as Hle by (destruct ext; [done|simpl; lia]).
  assert (PathLib.name (PathLib.join dir (name +:+ String "." ext))
          = name +:+ String "." ext) as Hname.
  { unfold PathLib.name, PathLib.parts.
    destruct (split_on_join dir _ Hsf) as [l ->].
    rewrite filter_app, filter_cons, filter_nil, decide_True.
    - by rewrite last_snoc.
    - split; intros E; rewrite E in Hlen; simpl in Hlen; lia. }
  unfold PathLib.stem. rewrite Hname, rfind_dot_last_suffix by done.
  rewrite Hlen. simpl.
  replace (0 <? String.length name) with true
    by (symmetry; apply Nat.ltb_lt; lia).
  replace (String.length name <? String.length name + S (String.length ext) - 1)
    with true by (symmetry; apply Nat.ltb_lt; lia).
  simpl. apply substring_prefix.
Qed.

Lemma stem_of_joined_path_witness :
  PathLib.stem (PathLib.join "src/pkg" "my.utils.py") = "my.utils".
Proof. by apply (stem_of_joined_path "src/pkg" "my.utils" "py"). Defined.

(** * Further properties across the files of a project *)

(** ** The order of the files *)

Section order.
Implicit Types (items : list (string * parse_data)) (r : resolver)
  (self : DependencyAnalyzer) (u v : string).

Lemma node_update_keys items : (omap node_update items).*1 = module_ids items.
Proof.
  unfold module_ids. induction items as [|[fp d] items IH]; [done|].
  destruct d;
    cbn [omap list_omap node_update parsing_successful fst snd fmap list_fmap];
    [by f_equal|done].
Qed.

Lemma info_update_keys items : (omap info_update items).*1 = module_ids items.
Proof.
  unfold module_ids. induction items as [|[fp d] items IH]; [done|].
  destruct d;
    cbn [omap list_omap info_update parsing_successful fst snd fmap list_fmap];
    [by f_equal|done].
Qed.

(** Assignments to distinct keys can be made in any order. *)
Lemma foldl_insert_perm {A} (kvs kvs' : list (string * A)) (m : gmap string A) :
  NoDup kvs.*1 → kvs ≡ₚ kvs' →
  foldl (λ m kv, <[kv.1 := kv.2]> m) m kvs
    = foldl (λ m kv, <[kv.1 := kv.2]> m) m kvs'.
Proof.
  intros Hnd Hp. assert (NoDup kvs'.*1) as Hnd' by (by rewrite <- Hp).
  apply map_eq. intros k. rewrite !foldl_insert_lookup.
  destruct (decide (k ∈ kvs.*1)) as [Hk|Hk].
  - apply list_elem_of_fmap in Hk as ([k' x] & -> & Hin). simpl.
    rewrite (filter_key_NoDup kvs k' x Hnd Hin).
    rewrite Hp in Hin. by rewrite (filter_key_NoDup kvs' k' x Hnd' Hin).
  - rewrite (filter_key_absent kvs k Hk).
    rewrite Hp in Hk. by rewrite (filter_key_absent kvs' k Hk).
Qed.

(** The imports of a file depend on the keys of the resolver only. *)
Lemma file_events_keys r r' (it : string * parse_data) :
  (∀ m, is_Some (module_mapping r !! m) ↔ is_Some (module_mapping r' !! m)) →
  file_events r it = file_events r' it.
Proof.
  intros Hr. unfold file_events. destruct it.2 as [fs cs imports n code|]; [|done].
  f_equal; apply list_fmap_ext; intros _ i _.
  - unfold standard_event. apply decide_ext, Hr.
  - unfold from_event. destruct (fi_module i) as [t|]; [|done].
    apply decide_ext, Hr.
Qed.

Lemma import_events_keys r r' items :
  (∀ m, is_Some (module_mapping r !! m) ↔ is_Some (module_mapping r' !! m)) →
  import_events r items = import_events r' items.
Proof.
  intros Hr. unfold import_events. induction items as [|it items IH]; [done|].
  by rewrite !bind_cons, IH, (file_events_keys r r' it Hr).
Qed.

Lemma resolver_of_perm items items' m :
  items ≡ₚ items' →
  is_Some (module_mapping (resolver_of items) !! m)
  ↔ is_Some (module_mapping (resolver_of items') !! m).
Proof.
  intros Hp.
  rewrite (resolver_of_mapping (Results items []) m).
  rewrite (resolver_of_mapping (Results items' []) m). simpl.
  unfold module_ids. by rewrite Hp.
Qed.

(** Only the file of module [u] has imports from [u]. *)
Lemma pair_attrs_file r u v (it : string * parse_data) :
  pair_attrs u v (file_events r it) ≠ [] →
  parsing_successful it.2 = true ∧ PathLib.stem it.1 = u.
Proof.
  intros H. apply pair_attrs_nonempty in H as [a Ha].
  unfold file_events in Ha. destruct it as [fp d]. simpl in *.
  destruct d as [fs cs imports n code|]; [|by apply elem_of_nil in Ha].
  split; [done|].
  apply elem_of_app in Ha as [Ha|Ha]; apply list_elem_of_fmap in Ha as [i [Ha _]].
  - unfold standard_event in Ha. case_decide; [|done]. by inversion Ha.
  - unfold from_event in Ha. destruct (fi_module i); [|done].
    case_decide; [|done]. by inversion Ha.
Qed.

Lemma module_ids_cons_NoDup (it : string * parse_data) items :
  NoDup (module_ids (it :: items)) → NoDup (module_ids items).
Proof.
  unfold module_ids. simpl. destruct (parsing_successful it.2); simpl; [|done].
  by intros [_ ?]%NoDup_cons.
Qed.

(** The imports between two modules come in the same order however the
    files are ordered, when no two files share a stem. *)
Lemma pair_attrs_perm r u v items items' :
  items ≡ₚ items' → NoDup (module_ids items) →
  pair_attrs u v (import_events r items)
    = pair_attrs u v (import_events r items').
Proof.
  unfold import_events, pair_attrs.
  induction 1 as [|x l l' Hp IH|x y l|l l' l'' Hp IH Hp' IH']; intros Hnd.
  - done.
  - rewrite !bind_cons, !omap_app, IH; [done|].
    by eapply module_ids_cons_NoDup.
  - rewrite !bind_cons, !omap_app.
    destruct (decide (omap (event_attr u v) (file_events r x) = [])) as [->|Hx];
      [done|].
    destruct (decide (omap (event_attr u v) (file_events r y) = [])) as [->|Hy];
      [done|].
    apply pair_attrs_file in Hx as [Hx Hxu]. apply pair_attrs_file in Hy as [Hy Hyu].
    unfold module_ids in Hnd. simpl in Hnd. rewrite Hx, Hy, Hxu, Hyu in Hnd.
    apply NoDup_cons in Hnd as [Hnd _]. destruct Hnd. by left.
  - rewrite IH, IH'; [done| |done].
    unfold module_ids in *. by rewrite <- Hp.
Qed.

End order.

(** X18. When no two parsed files of a project share a stem, the order of
    the files in [parsed_files] does not matter for what a run computes: a
    run on the same files in any other order succeeds with the same
    message and leaves the same nodes and edges with the same attributes,
    the same module table and the same set of external dependencies; it
    reports the same orphaned modules, and the same five numbers in the
    summary. *)
Theorem order_of_files_is_irrelevant (self : DependencyAnalyzer)
    (items items' : list (string * parse_data))
    (unsupported unsupported' : list string) :
  items ≡ₚ items' → NoDup (module_ids items) →
  ∃ st st' res res' msg,
    analyze_import_relationships self (Results items unsupported)
      = (st, (Some res, msg))
    ∧ analyze_import_relationships self (Results items' unsupported')
      = (st', (Some res', msg))
    ∧ dependency_graph st = dependency_graph st'
    ∧ module_info st = module_info st'
    ∧ external_dependencies st = external_dependencies st'
    ∧ orphaned_modules st ≡ₚ orphaned_modules st'
    ∧ r_summary res = r_summary res'.
Proof.
  intros Hp Hnd.
  set (pr := Results items unsupported). set (pr' := Results items' unsupported').
  assert (run_events pr' = import_events (resolver_of items) items') as Hev.
  { unfold run_events. simpl. apply import_events_keys. intros m.
    symmetry. by apply resolver_of_perm. }
  assert (dependency_graph (linked self pr).1
          = dependency_graph (linked self pr').1) as Hg.
  { apply DiGraph_eq.
    - rewrite !linked_node_table. simpl. apply foldl_insert_perm.
      + by rewrite node_update_keys.
      + by rewrite Hp.
    - apply map_eq. intros [u v]. rewrite !linked_adj, Hev. f_equal.
      unfold run_events. simpl. by apply pair_attrs_perm. }
  assert (module_info (linked self pr).1 = module_info (linked self pr').1)
    as Hm.
  { rewrite !linked_info_table. simpl. apply foldl_insert_perm.
    - by rewrite info_update_keys.
    - by rewrite Hp. }
  assert (run_events pr ≡ₚ run_events pr') as Hpe.
  { rewrite Hev. unfold run_events, import_events. simpl.
    by apply bind_Permutation. }
  assert (external_dependencies (linked self pr).1
          = external_dependencies (linked self pr').1) as He.
  { rewrite !linked_external. apply set_eq. intros x.
    rewrite !elem_of_union, !elem_of_list_to_set.
    unfold external_targets. by rewrite Hpe. }
  assert ((linked self pr).2 = (linked self pr').2) as Hc.
  { rewrite !linked_count. unfold resolved_count. by rewrite Hpe. }
  rewrite !analyze_unfold. cbn zeta.
  eexists _, _, _, _, _. split; [reflexivity|]. split; [reflexivity|].
  unfold identify_orphaned_modules, detect_circular_dependencies. simpl.
  by rewrite Hg, Hm, He, Hc.
Qed.

Lemma order_of_files_is_irrelevant_witness :
  ∃ st st' res res' msg,
    analyze_import_relationships DependencyAnalyzer_init
      (Results [("p/A.py", parsed (Imports [StandardImport "B" None 1] []));
                ("p/B.py", parsed (Imports [] []))] [])
      = (st, (Some res, msg))
    ∧ analyze_import_relationships DependencyAnalyzer_init
        (Results [("p/B.py", parsed (Imports [] []));
                  ("p/A.py", parsed (Imports [StandardImport "B" None 1] []))]
           [])
      = (st', (Some res', msg))
    ∧ dependency_graph st = dependency_graph st'
    ∧ module_info st = module_info st'
    ∧ external_dependencies st = external_dependencies st'
    ∧ orphaned_modules st ≡ₚ orphaned_modules st'
    ∧ r_summary res = r_summary res'.
Proof.
  apply order_of_files_is_irrelevant.
  - apply perm_swap.
  - apply (bool_decide_unpack _). vm_compute. exact I.
Defined.


Section modules.
Implicit Types (items : list (string * parse_data)) (self : DependencyAnalyzer).

Lemma foldl_insert_dom {A} (kvs : list (string * A)) (m : gmap string A) :
  dom (foldl (λ m kv, <[kv.1 := kv.2]> m) m kvs) = list_to_set kvs.*1 ∪ dom m.
Proof.
  revert m. induction kvs as [|[k v] kvs IH]; intros m; simpl.
  - set_solver.
  - rewrite IH, dom_insert_L. set_solver.
Qed.

(** A set built from a list has at most as many elements as the list, and
    as many exactly when the list repeats nothing. *)
Lemma size_list_to_set_length (l : list string) :
  size (list_to_set l : gset string) ≤ length l
  ∧ (size (list_to_set l : gset string) = length l ↔ NoDup l).
Proof.
  induction l as [|x l [IHle IHeq]];
    [rewrite list_to_set_nil|rewrite list_to_set_cons]; cbn [length].
  - rewrite size_empty. split; [lia|]. split; [intros _; apply NoDup_nil_2|done].
  - destruct (decide (x ∈ l)) as [Hx|Hx].
    + replace ({[x]} ∪ list_to_set l : gset string) with (list_to_set l : gset string)
        by set_solver.
      split; [lia|]. split; [lia|]. by intros [? _]%NoDup_cons.
    + rewrite size_union by set_solver. rewrite size_singleton.
      split; [lia|]. rewrite NoDup_cons, <- IHeq. split; [|lia].
      intros H. split; [done|lia].
Qed.

Lemma module_ids_length items :
  length (module_ids items)
    = length (filter (λ it, parsing_successful it.2 = true) items).
Proof.
  unfold module_ids. induction items as [|[fp d] items IH]; [done|].
  rewrite filter_cons. destruct d as [fs cs imports n code|err].
  - rewrite decide_True by done.
    cbn [omap list_omap parsing_successful fst snd length]. by f_equal.
  - by rewrite decide_False.
Qed.

End modules.

(** X19. On a new analyzer, [total_modules] is at most the number of files
    that parsed, and it is that number exactly when no two of them share a
    stem: a smaller count tells that files collided on a module name. *)
Theorem modules_and_parsed_files (pr : project_results) :
  ∃ res,
    (analyze_import_relationships DependencyAnalyzer_init pr).2.1 = Some res
    ∧ total_modules (r_summary res)
      ≤ length (filter (λ it, parsing_successful it.2 = true)
                  (parsed_files_items pr))
    ∧ (total_modules (r_summary res)
       = length (filter (λ it, parsing_successful it.2 = true)
                   (parsed_files_items pr))
       ↔ NoDup (module_ids (parsed_files_items pr))).
Proof.
  rewrite analyze_unfold. cbn zeta. eexists. split; [done|].
  cbn [r_summary total_modules identify_orphaned_modules
       detect_circular_dependencies dependency_graph].
  unfold number_of_nodes. rewrite <- size_dom, linked_node_table.
  rewrite foldl_insert_dom, node_update_keys. simpl.
  rewrite dom_empty_L, (right_id_L ∅ (∪)), <- module_ids_length.
  apply size_list_to_set_length.
Qed.

(** * From the directory tree to the graph *)

(** A record of the parser's result belongs to a supported file of the
    tree. *)
Lemma parse_project_entries (root_dir : string) (at_root : option fs_node)
    (p : string) (x : parse_data) :
  (p, x) ∈ parsed_files_items (parse_project root_dir at_root).1 →
  ∃ n dirpath file c,
    at_root = Some n ∧ file_at root_dir n dirpath file c
    ∧ supported file ∧ p = PathLib.join dirpath file
    ∧ x = parse_python_file c.
Proof.
  rewrite parse_project_fold. cbn zeta.
  pose proof (parse_entries_records (walked_files root_dir at_root) ([], []))
    as Hv.
  simpl.
  intros [H|(d & f & c & H & Hs & -> & ->)]%Hv; [by apply elem_of_nil in H|].
  apply elem_of_walked_files in H as (n & -> & H). by exists n, d, f, c.
Qed.

(** X20. When a new analyzer analyses what [parse_project] returns for a
    directory tree, as [analyze_codebase] does, every node of the graph is
    the stem of the path of a file of the tree that has a supported
    extension, lies in a directory that could be listed, and was read and
    parsed without error: unsupported files, unreadable files and files
    with syntax errors never become modules. *)
Theorem modules_come_from_parsed_files (root_dir : string)
    (at_root : option fs_node) (m : string) :
  is_Some
    (nodes (dependency_graph
       (analyze_import_relationships DependencyAnalyzer_init
          (parse_project root_dir at_root).1).1) !! m) →
  ∃ n dirpath file code root,
    at_root = Some n
    ∧ file_at root_dir n dirpath file (Source code (inr root))
    ∧ supported file
    ∧ PathLib.stem (PathLib.join dirpath file) = m.
Proof.
  rewrite analyze_nodes. intros [[a H]|H]; [simpl in H; by rewrite lookup_empty in H|].
  apply elem_of_module_ids in H as (fp & d & Hin & Hd & <-).
  apply parse_project_entries in Hin as (n & dirpath & file & c & -> & Hf & Hs & -> & ->).
  destruct c as [e|code [e|root]]; try done.
  by exists n, dirpath, file, code, root.
Qed.

Lemma modules_come_from_parsed_files_witness :
  ∃ n dirpath file code root,
    Some sample_relative = Some n
    ∧ file_at "pkg" n dirpath file (Source code (inr root))
    ∧ supported file
    ∧ PathLib.stem (PathLib.join dirpath file) = "mod".
Proof.
  apply (modules_come_from_parsed_files "pkg" (Some sample_relative) "mod").
  apply (bool_decide_unpack _). vm_compute. exact I.
Defined.

(** X21. A run on a project none of whose files parsed leaves the graph,
    the module table and the external dependencies of the analyzer as they
    were, and counts no dependency. *)
Theorem nothing_parsed_changes_nothing (self : DependencyAnalyzer)
    (items : list (string * parse_data)) (unsupported : list string) :
  (∀ fp d, (fp, d) ∈ items → parsing_successful d = false) →
  dependency_graph
    (analyze_import_relationships self (Results items unsupported)).1
    = dependency_graph self
  ∧ module_info
      (analyze_import_relationships self (Results items unsupported)).1
    = module_info self
  ∧ external_dependencies
      (analyze_import_relationships self (Results items unsupported)).1
    = external_dependencies self
  ∧ ∃ res,
      (analyze_import_relationships self (Results items unsupported)).2.1
        = Some res
      ∧ total_dependencies (r_summary res) = 0.
Proof.
  intros Hfail.
  assert (filter (λ it, parsing_successful it.2 = true) items = []) as Hnil.
  { induction items as [|[fp d] items IH]; [done|].
    rewrite filter_cons, decide_False.
    - apply IH. intros fp' d' Hin. apply (Hfail fp' d'). by right.
    - simpl. rewrite (Hfail fp d); [done|by left]. }
  assert (linked self (Results items unsupported) = (self, 0)) as Hl.
  { unfold linked, run_events, resolver_of. cbn [parsed_files_items].
    rewrite <- (import_events_skip_failed items),
            <- !(register_files_skip_failed items), Hnil.
    done. }
  rewrite analyze_unfold, Hl. cbn zeta. simpl.
  split; [done|]. split; [done|]. split; [done|]. by eexists.
Qed.

Lemma nothing_parsed_changes_nothing_witness :
  dependency_graph
    (analyze_import_relationships DependencyAnalyzer_init
       (Results [("p/broken.py", ParseFail "invalid syntax")] [])).1
    = dependency_graph DependencyAnalyzer_init
  ∧ module_info
      (analyze_import_relationships DependencyAnalyzer_init
         (Results [("p/broken.py", ParseFail "invalid syntax")] [])).1
    = module_info DependencyAnalyzer_init
  ∧ external_dependencies
      (analyze_import_relationships DependencyAnalyzer_init
         (Results [("p/broken.py", ParseFail "invalid syntax")] [])).1
    = external_dependencies DependencyAnalyzer_init
  ∧ ∃ res,
      (analyze_import_relationships DependencyAnalyzer_init
         (Results [("p/broken.py", ParseFail "invalid syntax")] [])).2.1
        = Some res
      ∧ total_dependencies (r_summary res) = 0.
Proof.
  apply (nothing_parsed_changes_nothing DependencyAnalyzer_init
           [("p/broken.py", ParseFail "invalid syntax")] []).
  intros fp d Hin. apply list_elem_of_singleton in Hin. by inversion Hin.
Defined.
